(** * x-cli: the request-signing engine and the scheduled-post store

    A shallow embedding of [main.go] of kalikim/x-cli.  Go strings are byte
    strings: they are modelled as [string], one [ascii] per byte, compared
    byte-wise.  Functions of the Go standard library that the program calls
    ([net/url], [strings], [encoding/hex], [encoding/base64], [crypto/sha1],
    [crypto/hmac], [time]) are transcribed in modules named after their
    package, following the library of Go 1.22, the version the repository
    targets. *)

From Stdlib Require Import ZArith NArith Ascii String List Bool Lia.
From Stdlib Require Import Sorting.Mergesort Sorting.Sorted Orders.
From stdpp Require Import gmap strings list sorting pretty.

Local Open Scope Z_scope.

(** ** Bytes *)

Definition byte_val (c : ascii) : N := N_of_ascii c.

Definition between (lo hi c : ascii) : bool :=
  (byte_val lo <=? byte_val c)%N && (byte_val c <=? byte_val hi)%N.

Definition isLower (c : ascii) : bool := between "a" "z" c.
Definition isUpper (c : ascii) : bool := between "A" "Z" c.
Definition isDigit (c : ascii) : bool := between "0" "9" c.
Definition isAlnum (c : ascii) : bool := isLower c || isUpper c || isDigit c.

Definition isSpace (c : ascii) : bool := Ascii.eqb c " ".

(** [c] is one of the bytes of [set] (a Go [switch c { case ... }]). *)
Definition oneOf (c : ascii) (set : string) : bool :=
  existsb (Ascii.eqb c) (list_ascii_of_string set).

(** [s[i]] for a table that is always indexed in range. *)
Definition index_byte (s : string) (i : N) : ascii :=
  match String.get (N.to_nat i) s with
  | Some c => c
  | None => "000"%char
  end.

(** The byte 0x22, the double quote. *)
Definition quote : ascii := "034"%char.

Definition str1 (c : ascii) : string := String c EmptyString.

(** ** JSON

    A JSON text is held as the value that [encoding/json] reads from it;
    strings are the decoded strings, and are taken to be valid UTF-8 (as
    those that the decoder returns are), which the encoder writes as they
    are. *)

#[local] Set Warnings "-register-all".

Inductive json : Type :=
| JNull
| JBool (b : bool)
| JNumber (literal : string)
| JString (s : string)
| JArray (elems : list json)
| JObject (members : list (string * json)).

(** The bytes of a file or of a message body: [Json v] stands for a JSON text
    that denotes [v] (how it is laid out is not modelled), [Raw bytes] for
    bytes that are kept as they are and that are not a JSON text. *)
Inductive payload : Type :=
| Raw (bytes : string)
| Json (v : json).

(** ** Errors

    Go's [error] values, as far as the program can tell them apart: the
    message of [errors.New] and [fmt.Errorf], the [%w] wrapping, and the error
    types of the packages used. *)

Inductive error : Type :=
| errorString (msg : string)
| wrapError (msg : string) (err : error)
| EscapeError (s : string)
| InvalidHostError (s : string)
| invalidPortError (port : string)
| urlError (op url : string) (err : error)
| ErrNotExist (path : string)
| ioError (op path : string)
| jsonSyntaxError
| jsonTypeError (field : string)
| timeParseError (layout value : string)
| timeMarshalError (msg : string)
| apiError (status : Z) (body : payload)
| mediaUploadFailed (msg : payload)
| randError
| netError.

Inductive result (A : Type) : Type :=
| Ok (a : A)
| Err (e : error).

Arguments Ok {A} a.
Arguments Err {A} e.

(** The error monad, with stdpp's [x ← r; k] notation. *)
#[global] Instance result_ret : MRet result := fun A a => Ok a.
#[global] Instance result_bind : MBind result := fun A B f r =>
  match r with
  | Ok a => f a
  | Err e => Err e
  end.

Definition isErr {A : Type} (r : result A) : bool :=
  match r with Ok _ => false | Err _ => true end.

(** ** Package [strings] *)

Module Strings.

Definition toUpperByte (c : ascii) : ascii :=
  if isLower c then ascii_of_N (byte_val c - 32) else c.

Definition toLowerByte (c : ascii) : ascii :=
  if isUpper c then ascii_of_N (byte_val c + 32) else c.

Fixpoint mapBytes (f : ascii -> ascii) (s : string) : string :=
  match s with
  | EmptyString => EmptyString
  | String c r => String (f c) (mapBytes f r)
  end.

(** [strings.ToUpper] and [strings.ToLower] on ASCII text.  Bytes from 0x80
    up are kept as they are: Go maps them through the Unicode tables, which
    are not transcribed (methods, schemes and hosts of this program are
    ASCII). *)
Definition ToUpper (s : string) : string := mapBytes toUpperByte s.
Definition ToLower (s : string) : string := mapBytes toLowerByte s.

Definition HasPrefix (s p : string) : bool := String.prefix p s.

(** Scanning left to right: at a match emit [new] and skip the rest of the
    match, otherwise copy the byte. *)
Fixpoint replaceFrom (skip : nat) (s old new : string) : string :=
  match s with
  | EmptyString => EmptyString
  | String c r =>
      match skip with
      | S k => replaceFrom k r old new
      | O =>
          if HasPrefix s old
          then new +:+ replaceFrom (String.length old - 1) r old new
          else String c (replaceFrom 0 r old new)
      end
  end.

(** [strings.ReplaceAll(s, old, new)] for a non-empty [old] (the program
    only replaces ["+"]); with an empty [old] the string is returned
    unchanged here, where Go interleaves [new]. *)
Definition ReplaceAll (s old new : string) : string :=
  match old with
  | EmptyString => s
  | _ => replaceFrom 0 s old new
  end.

Fixpoint Join (elems : list string) (sep : string) : string :=
  match elems with
  | [] => EmptyString
  | [x] => x
  | x :: rest => x +:+ sep +:+ Join rest sep
  end.

Definition drop (n : nat) (s : string) : string :=
  String.substring n (String.length s) s.

Definition take (n : nat) (s : string) : string := String.substring 0 n s.

Definition HasSuffix (s suffix : string) : bool :=
  (String.length suffix <=? String.length s)%nat
  && String.eqb (drop (String.length s - String.length suffix) s) suffix.

(** The two sides of the first occurrence of [sep] in [s], if there is one. *)
Fixpoint cutFirst (s sep : string) : option (string * string) :=
  if HasPrefix s sep then Some (EmptyString, drop (String.length sep) s)
  else match s with
       | EmptyString => None
       | String c r =>
           match cutFirst r sep with
           | Some (before, after) => Some (String c before, after)
           | None => None
           end
       end.

(** [strings.Cut(s, sep)]: [(before, after, found)]. *)
Definition Cut (s sep : string) : string * string * bool :=
  match cutFirst s sep with
  | Some (before, after) => (before, after, true)
  | None => (s, EmptyString, false)
  end.

Definition Contains (s sep : string) : bool :=
  match cutFirst s sep with Some _ => true | None => false end.

(** The two sides of the last occurrence of the byte [c]. *)
Fixpoint cutLastByte (s : string) (c : ascii) : option (string * string) :=
  match s with
  | EmptyString => None
  | String d r =>
      match cutLastByte r c with
      | Some (before, after) => Some (String d before, after)
      | None => if Ascii.eqb d c then Some (EmptyString, r) else None
      end
  end.

(** The pieces of [s] between the occurrences of the byte [c]. *)
Fixpoint splitByte (s : string) (c : ascii) : list string :=
  match s with
  | EmptyString => [EmptyString]
  | String d r =>
      if Ascii.eqb d c then EmptyString :: splitByte r c
      else match splitByte r c with
           | piece :: pieces => String d piece :: pieces
           | [] => [str1 d]
           end
  end.

Fixpoint countByte (s : string) (c : ascii) : nat :=
  match s with
  | EmptyString => O
  | String d r => (if Ascii.eqb d c then 1 else 0)%nat + countByte r c
  end.

End Strings.

(** ** Package [net/url]: escaping *)

Module Url.

Inductive encoding : Set :=
| encodePath | encodePathSegment | encodeHost | encodeZone
| encodeUserPassword | encodeQueryComponent | encodeFragment.

Definition isHostMode (mode : encoding) : bool :=
  match mode with encodeHost | encodeZone => true | _ => false end.

Definition upperhex : string := "0123456789ABCDEF".

(** [shouldEscape(c, mode)]: must [c] be written as [%XX] in the given part
    of a URL? *)
Definition shouldEscape (c : ascii) (mode : encoding) : bool :=
  if isAlnum c then false
  else if isHostMode mode && (oneOf c "!$&'()*+,;=:[]<>" || Ascii.eqb c quote) then false
  else if oneOf c "-_.~" then false
  else if oneOf c "$&+,/:;=?@" then
    match mode with
    | encodePath => Ascii.eqb c "?"
    | encodePathSegment => oneOf c "/;,?"
    | encodeUserPassword => oneOf c "@/?:"
    | encodeQueryComponent => true
    | encodeFragment => false
    | encodeHost | encodeZone => true
    end
  else if match mode with encodeFragment => oneOf c "!()*" | _ => false end then false
  else true.

(** The first loop of [escape]: the number of spaces (in a query component)
    and of bytes to write in hexadecimal. *)
Fixpoint escapeCounts (s : string) (mode : encoding) : nat * nat :=
  match s with
  | EmptyString => (O, O)
  | String c r =>
      let '(spaceCount, hexCount) := escapeCounts r mode in
      if shouldEscape c mode then
        if isSpace c && match mode with encodeQueryComponent => true | _ => false end
        then (S spaceCount, hexCount)
        else (spaceCount, S hexCount)
      else (spaceCount, hexCount)
  end.

Definition hexEscape (c : ascii) : string :=
  String "%" (String (index_byte upperhex (byte_val c / 16))
             (String (index_byte upperhex (byte_val c mod 16)) EmptyString)).

(** The second loop of [escape]. *)
Fixpoint escapeWrite (s : string) (mode : encoding) : string :=
  match s with
  | EmptyString => EmptyString
  | String c r =>
      if isSpace c && match mode with encodeQueryComponent => true | _ => false end
      then String "+" (escapeWrite r mode)
      else if shouldEscape c mode then hexEscape c +:+ escapeWrite r mode
      else String c (escapeWrite r mode)
  end.

Definition escape (s : string) (mode : encoding) : string :=
  match escapeCounts s mode with
  | (O, O) => s
  | _ => escapeWrite s mode
  end.

Definition QueryEscape (s : string) : string := escape s encodeQueryComponent.

(** *** Unescaping *)

Definition ishex (c : ascii) : bool :=
  isDigit c || between "a" "f" c || between "A" "F" c.

Definition unhex (c : ascii) : N :=
  if isDigit c then byte_val c - 48
  else if between "a" "f" c then byte_val c - 97 + 10
  else if between "A" "F" c then byte_val c - 65 + 10
  else 0.

Definition isQueryMode (mode : encoding) : bool :=
  match mode with encodeQueryComponent => true | _ => false end.

(** [unescape(s, mode)].  Go checks the whole string in a first loop and
    writes the result in a second one; here both are done in one pass from
    the left, which reports the same, leftmost, error. *)
Fixpoint unescape (s : string) (mode : encoding) : result string :=
  match s with
  | EmptyString => Ok EmptyString
  | String c r =>
      if Ascii.eqb c "%" then
        match r with
        | String a (String b r') =>
            if ishex a && ishex b then
              let esc := String c (String a (String b EmptyString)) in
              let v := ascii_of_N (unhex a * 16 + unhex b) in
              if match mode with encodeHost => true | _ => false end
                 && (unhex a <? 8)%N && negb (String.eqb esc "%25")
              then Err (EscapeError esc)
              else if match mode with encodeZone => true | _ => false end
                      && negb (String.eqb esc "%25") && negb (isSpace v)
                      && shouldEscape v encodeHost
              then Err (EscapeError esc)
              else t ← unescape r' mode; Ok (String v t)
            else Err (EscapeError (Strings.take 3 s))
        | _ => Err (EscapeError (Strings.take 3 s))
        end
      else if Ascii.eqb c "+" then
        t ← unescape r mode;
        Ok (String (if isQueryMode mode then " "%char else "+"%char) t)
      else if isHostMode mode && (byte_val c <? 128)%N && shouldEscape c encodeHost
      then Err (InvalidHostError (str1 c))
      else t ← unescape r mode; Ok (String c t)
  end.

Definition QueryUnescape (s : string) : result string :=
  unescape s encodeQueryComponent.

(** *** Parsing *)

(** The fields of [url.URL] that parsing fills in, but for [User] and
    [RawFragment], which the program never reads (they are still checked). *)
Record URL : Type := mkURL {
  Scheme : string;
  Opaque : string;
  Host : string;
  Path : string;
  RawPath : string;
  OmitHost : bool;
  ForceQuery : bool;
  RawQuery : string;
  Fragment : string
}.

Fixpoint stringContainsCTLByte (s : string) : bool :=
  match s with
  | EmptyString => false
  | String b r =>
      (byte_val b <? 32)%N || (byte_val b =? 127)%N || stringContainsCTLByte r
  end.

(** The loop of [getScheme]: [pre] is [rawURL[:i]], [s] is [rawURL[i:]]. *)
Fixpoint getSchemeLoop (rawURL pre s : string) : result (string * string) :=
  match s with
  | EmptyString => Ok (EmptyString, rawURL)
  | String c r =>
      if isLower c || isUpper c then getSchemeLoop rawURL (pre +:+ str1 c) r
      else if isDigit c || oneOf c "+-." then
        match pre with
        | EmptyString => Ok (EmptyString, rawURL)
        | _ => getSchemeLoop rawURL (pre +:+ str1 c) r
        end
      else if Ascii.eqb c ":" then
        match pre with
        | EmptyString => Err (errorString "missing protocol scheme")
        | _ => Ok (pre, r)
        end
      else Ok (EmptyString, rawURL)
  end.

Definition getScheme (rawURL : string) : result (string * string) :=
  getSchemeLoop rawURL EmptyString rawURL.

Fixpoint allDigits (s : string) : bool :=
  match s with
  | EmptyString => true
  | String b r => isDigit b && allDigits r
  end.

Definition validOptionalPort (port : string) : bool :=
  match port with
  | EmptyString => true
  | String c r => Ascii.eqb c ":" && allDigits r
  end.

Fixpoint validUserinfo (s : string) : bool :=
  match s with
  | EmptyString => true
  | String r rest =>
      (isAlnum r || oneOf r "-._:~!$&'()*+,;=%@") && validUserinfo rest
  end.

Definition parseHost (host : string) : result string :=
  if Strings.HasPrefix host "[" then
    match Strings.cutLastByte host "]" with
    | None => Err (errorString "missing ']' in host")
    | Some (before, colonPort) =>
        if negb (validOptionalPort colonPort) then Err (invalidPortError colonPort)
        else
          match Strings.cutFirst before "%25" with
          | Some (beforeZone, afterPercent) =>
              host1 ← unescape beforeZone encodeHost;
              host2 ← unescape ("%25" +:+ afterPercent) encodeZone;
              host3 ← unescape ("]" +:+ colonPort) encodeHost;
              Ok (host1 +:+ host2 +:+ host3)
          | None => unescape host encodeHost
          end
    end
  else
    match Strings.cutLastByte host ":" with
    | Some (_, afterColon) =>
        if negb (validOptionalPort (":" +:+ afterColon))
        then Err (invalidPortError (":" +:+ afterColon))
        else unescape host encodeHost
    | None => unescape host encodeHost
    end.

(** [parseAuthority], returning the host only: the user information is
    checked and dropped. *)
Definition parseAuthority (authority : string) : result string :=
  match Strings.cutLastByte authority "@" with
  | None => parseHost authority
  | Some (userinfo, hostPart) =>
      host ← parseHost hostPart;
      if negb (validUserinfo userinfo)
      then Err (errorString "net/url: invalid userinfo")
      else if negb (Strings.Contains userinfo ":") then
        _ ← unescape userinfo encodeUserPassword; Ok host
      else
        let '(username, password, _) := Strings.Cut userinfo ":" in
        _ ← unescape username encodeUserPassword;
        _ ← unescape password encodeUserPassword;
        Ok host
  end.

Definition setPath (u : URL) (p : string) : result URL :=
  path ← unescape p encodePath;
  Ok (mkURL (Scheme u) (Opaque u) (Host u) path
            (if String.eqb p (escape path encodePath) then EmptyString else p)
            (OmitHost u) (ForceQuery u) (RawQuery u) (Fragment u)).

(** [parse(rawURL, viaRequest)] with [viaRequest = false], as [Parse] calls
    it. *)
Definition parse (rawURL : string) : result URL :=
  if stringContainsCTLByte rawURL
  then Err (errorString "net/url: invalid control character in URL")
  else if String.eqb rawURL "*"
  then Ok (mkURL EmptyString EmptyString EmptyString "*" EmptyString false false
                 EmptyString EmptyString)
  else
    '(scheme0, rest0) ← getScheme rawURL;
    let scheme := Strings.ToLower scheme0 in
    let '(rest1, rawQuery, forceQuery) :=
      if Strings.HasSuffix rest0 "?" && Nat.eqb (Strings.countByte rest0 "?") 1
      then (Strings.take (String.length rest0 - 1) rest0, EmptyString, true)
      else let '(before, after, _) := Strings.Cut rest0 "?" in (before, after, false) in
    let u := mkURL scheme EmptyString EmptyString EmptyString EmptyString false
                   forceQuery rawQuery EmptyString in
    if negb (Strings.HasPrefix rest1 "/") && negb (String.eqb scheme EmptyString)
    then Ok (mkURL scheme rest1 EmptyString EmptyString EmptyString false
                   forceQuery rawQuery EmptyString)
    else if negb (Strings.HasPrefix rest1 "/")
            && (let '(segment, _, _) := Strings.Cut rest1 "/" in
                Strings.Contains segment ":")
    then Err (errorString "first path segment in URL cannot contain colon")
    else if (negb (String.eqb scheme EmptyString) || negb (Strings.HasPrefix rest1 "///"))
            && Strings.HasPrefix rest1 "//"
    then
      let authority0 := Strings.drop 2 rest1 in
      let '(authority, rest2) :=
        match Strings.cutFirst authority0 "/" with
        | Some (before, after) => (before, "/" +:+ after)
        | None => (authority0, EmptyString)
        end in
      host ← parseAuthority authority;
      setPath (mkURL scheme EmptyString host EmptyString EmptyString false
                     forceQuery rawQuery EmptyString) rest2
    else
      setPath (mkURL scheme EmptyString EmptyString EmptyString EmptyString
                     (negb (String.eqb scheme EmptyString) && Strings.HasPrefix rest1 "/")
                     forceQuery rawQuery EmptyString) rest1.

Definition wrapParse {A : Type} (url : string) (r : result A) : result A :=
  match r with
  | Ok a => Ok a
  | Err e => Err (urlError "parse" url e)
  end.

(** [url.Parse(rawURL)]. *)
Definition Parse (rawURL : string) : result URL :=
  let '(u, frag, _) := Strings.Cut rawURL "#" in
  url ← wrapParse u (parse u);
  match frag with
  | EmptyString => Ok url
  | _ =>
      f ← wrapParse rawURL (unescape frag encodeFragment);
      Ok (mkURL (Scheme url) (Opaque url) (Host url) (Path url) (RawPath url)
                (OmitHost url) (ForceQuery url) (RawQuery url) f)
  end.

Fixpoint validEncoded (s : string) (mode : encoding) : bool :=
  match s with
  | EmptyString => true
  | String c r =>
      (oneOf c "!$&'()*+,;=:@" || oneOf c "[]" || Ascii.eqb c "%"
       || negb (shouldEscape c mode))
      && validEncoded r mode
  end.

(** [u.EscapedPath()]. *)
Definition EscapedPath (u : URL) : string :=
  let fromRaw :=
    if negb (String.eqb (RawPath u) EmptyString) && validEncoded (RawPath u) encodePath
    then match unescape (RawPath u) encodePath with
         | Ok p => String.eqb p (Path u)
         | Err _ => false
         end
    else false in
  if fromRaw then RawPath u
  else if String.eqb (Path u) "*" then "*"
  else escape (Path u) encodePath.

(** *** Query values *)

(** [url.Values], a [map[string][]string]. *)
Abbreviation Values := (gmap string (list string)).

(** [v.Add(key, value)]: [v[key] = append(v[key], value)]. *)
Definition Add (v : Values) (key value : string) : Values :=
  <[key := default [] (v !! key) ++ [value]]> v.

(** One turn of the loop of [parseQuery], on the piece [key] of the query
    before the next [&]; a piece that is empty, holds a semicolon or does not
    unescape is skipped (the error that [ParseQuery] reports for it is dropped
    by [Query]). *)
Definition parseQueryPiece (m : Values) (piece : string) : Values :=
  if Strings.Contains piece ";" then m
  else if String.eqb piece EmptyString then m
  else
    let '(key, value, _) := Strings.Cut piece "=" in
    match QueryUnescape key with
    | Err _ => m
    | Ok key1 =>
        match QueryUnescape value with
        | Err _ => m
        | Ok value1 => Add m key1 value1
        end
    end.

(** [u.Query()]: [ParseQuery(u.RawQuery)] without its error.  The loop cuts
    the query at each [&]. *)
Definition Query (u : URL) : Values :=
  fold_left parseQueryPiece (Strings.splitByte (RawQuery u) "&") ∅.

End Url.

(** ** Package [encoding/hex] *)

Module Hex.

Definition hextable : string := "0123456789abcdef".

Fixpoint EncodeToString (src : string) : string :=
  match src with
  | EmptyString => EmptyString
  | String v r =>
      String (index_byte hextable (byte_val v / 16))
        (String (index_byte hextable (byte_val v mod 16)) (EncodeToString r))
  end.

End Hex.

(** ** Package [encoding/base64] *)

Module Base64.

Definition encodeStd : string :=
  "ABCDEFGHIJKLMNOPQRSTUVWXYZabcdefghijklmnopqrstuvwxyz0123456789+/".

Definition enc (v : N) : ascii := index_byte encodeStd (N.land v 63).

(** [base64.StdEncoding.EncodeToString]: three bytes give four digits, a
    last group of one or two bytes is padded with [=]. *)
Fixpoint EncodeToString (src : string) : string :=
  match src with
  | EmptyString => EmptyString
  | String a EmptyString =>
      let val := N.shiftl (byte_val a) 16 in
      String (enc (N.shiftr val 18)) (String (enc (N.shiftr val 12)) "==")
  | String a (String b EmptyString) =>
      let val := N.lor (N.shiftl (byte_val a) 16) (N.shiftl (byte_val b) 8) in
      String (enc (N.shiftr val 18)) (String (enc (N.shiftr val 12))
        (String (enc (N.shiftr val 6)) "="))
  | String a (String b (String c r)) =>
      let val := N.lor (N.lor (N.shiftl (byte_val a) 16) (N.shiftl (byte_val b) 8))
                       (byte_val c) in
      String (enc (N.shiftr val 18)) (String (enc (N.shiftr val 12))
        (String (enc (N.shiftr val 6)) (String (enc val) (EncodeToString r))))
  end.

End Base64.

(** ** Packages [crypto/sha1] and [crypto/hmac]

    SHA-1 (FIPS 180-4) on 32-bit words held in [N], every sum reduced modulo
    [2^32], and HMAC (RFC 2104) over it. *)

Module Sha1.

Definition mask32 : N := 4294967295.

Definition add32 (a b : N) : N := N.land (a + b) mask32.

Definition rotl (n : N) (x : N) : N :=
  N.lor (N.land (N.shiftl x n) mask32) (N.shiftr x (32 - n)).

Definition not32 (x : N) : N := N.lxor x mask32.

Definition BlockSize : nat := 64.

Definition bigEndian (bytes : nat) (v : N) : string :=
  string_of_list_ascii
    (map (fun i => ascii_of_N (N.land (N.shiftr v (8 * N.of_nat i)) 255))
         (rev (seq 0 bytes))).

Fixpoint zeros (n : nat) : string :=
  match n with
  | O => EmptyString
  | S k => String "000" (zeros k)
  end.

(** The message, a [0x80] byte, zeros up to 56 modulo 64, and the length in
    bits on eight bytes. *)
Definition pad (msg : string) : string :=
  let len := String.length msg in
  let fill := ((BlockSize + 55 - len mod BlockSize) mod BlockSize)%nat in
  msg +:+ String "128" (zeros fill) +:+ bigEndian 8 (8 * N.of_nat len).

Fixpoint words (bytes : list ascii) : list N :=
  match bytes with
  | a :: b :: c :: d :: r =>
      (N.shiftl (byte_val a) 24 + N.shiftl (byte_val b) 16
       + N.shiftl (byte_val c) 8 + byte_val d)%N :: words r
  | _ => []
  end.

Fixpoint chunks (n : nat) (k : nat) (l : list N) : list (list N) :=
  match n with
  | O => []
  | S n' => take k l :: chunks n' k (drop k l)
  end.

(** The message schedule: [window] holds the last sixteen words, the newest
    first. *)
Fixpoint schedule (n : nat) (window : list N) : list N :=
  match n with
  | O => []
  | S n' =>
      let w := rotl 1 (N.lxor (N.lxor (nth 2 window 0%N) (nth 7 window 0%N))
                              (N.lxor (nth 13 window 0%N) (nth 15 window 0%N))) in
      w :: schedule n' (w :: take 15 window)
  end.

Definition expand (block : list N) : list N := block ++ schedule 64 (rev block).

Definition roundFunction (t : nat) (b c d : N) : N * N :=
  if (t <? 20)%nat then (N.lor (N.land b c) (N.land (not32 b) d), 1518500249%N)
  else if (t <? 40)%nat then (N.lxor (N.lxor b c) d, 1859775393%N)
  else if (t <? 60)%nat
  then (N.lor (N.lor (N.land b c) (N.land b d)) (N.land c d), 2400959708%N)
  else (N.lxor (N.lxor b c) d, 3395469782%N).

Definition state : Type := N * N * N * N * N.

Fixpoint rounds (t : nat) (ws : list N) (st : state) : state :=
  match ws with
  | [] => st
  | w :: ws' =>
      let '(a, b, c, d, e) := st in
      let '(f, k) := roundFunction t b c d in
      let temp := add32 (add32 (add32 (add32 (rotl 5 a) f) e) k) w in
      rounds (S t) ws' (temp, a, rotl 30 b, c, d)
  end.

Definition block (st : state) (blk : list N) : state :=
  let '(h0, h1, h2, h3, h4) := st in
  let '(a, b, c, d, e) := rounds 0 (expand blk) st in
  (add32 h0 a, add32 h1 b, add32 h2 c, add32 h3 d, add32 h4 e).

Definition init : state :=
  (1732584193, 4023233417, 2562383102, 271733878, 3285377520)%N.

(** [sha1.Sum(data)], the twenty bytes of the digest. *)
Definition Sum (data : string) : string :=
  let padded := list_ascii_of_string (pad data) in
  let ws := words padded in
  let '(h0, h1, h2, h3, h4) :=
    fold_left block (chunks (length padded / BlockSize) 16 ws) init in
  bigEndian 4 h0 +:+ bigEndian 4 h1 +:+ bigEndian 4 h2 +:+ bigEndian 4 h3
  +:+ bigEndian 4 h4.

End Sha1.

Module Hmac.

Definition xorPad (pad : N) (key : string) : string :=
  Strings.mapBytes (fun c => ascii_of_N (N.lxor (byte_val c) pad)) key.

(** [hmac.New(sha1.New, key)], [Write(message)] and [Sum(nil)]. *)
Definition SumSha1 (key message : string) : string :=
  let key1 := if (Sha1.BlockSize <? String.length key)%nat then Sha1.Sum key else key in
  let key2 := key1 +:+ Sha1.zeros (Sha1.BlockSize - String.length key1) in
  Sha1.Sum (xorPad 92 key2 +:+ Sha1.Sum (xorPad 54 key2 +:+ message)).

End Hmac.

(** ** Package [sort] *)

Module Sort.

(** [sort.Strings]: the strings in increasing order, which for Go is the
    byte-wise lexicographic order [String.le]. *)
Definition Strings (l : list string) : list string := merge_sort String.le l.

End Sort.

(** ** Package [time]

    A [Time] is held as the calendar date, the time of day and the offset in
    seconds east of UTC of its own zone; zones are fixed offsets. *)

Module Time.

Record Time : Type := mkTime {
  Year : Z;
  Month : Z;
  Day : Z;
  Hour : Z;
  Minute : Z;
  Second : Z;
  Nanosecond : Z;
  Offset : Z
}.

(** The zero [Time]: January 1, year 1, 00:00:00 UTC. *)
Definition zero : Time := mkTime 1 1 1 0 0 0 0 0.

Definition isLeap (year : Z) : bool :=
  (year mod 4 =? 0) && (negb (year mod 100 =? 0) || (year mod 400 =? 0)).

Definition daysIn (month year : Z) : Z :=
  if (month =? 2) && isLeap year then 29
  else if month =? 2 then 28
  else if (month =? 4) || (month =? 6) || (month =? 9) || (month =? 11) then 30
  else 31.

(** Days from January 1, 1970 to the given date of the proleptic Gregorian
    calendar ([day] may lie outside of the month). *)
Definition daysFromCivil (year month day : Z) : Z :=
  let y := if month <=? 2 then year - 1 else year in
  let era := y / 400 in
  let yoe := y - era * 400 in
  let mp := if month <=? 2 then month + 9 else month - 3 in
  let doy := (153 * mp + 2) / 5 + day - 1 in
  let doe := yoe * 365 + yoe / 4 - yoe / 100 + doy in
  era * 146097 + doe - 719468.

(** The date that lies the given number of days after January 1, 1970. *)
Definition civilFromDays (days : Z) : Z * Z * Z :=
  let z := days + 719468 in
  let era := z / 146097 in
  let doe := z - era * 146097 in
  let yoe := (doe - doe / 1460 + doe / 36524 - doe / 146096) / 365 in
  let doy := doe - (365 * yoe + yoe / 4 - yoe / 100) in
  let mp := (5 * doy + 2) / 153 in
  let d := doy - (153 * mp + 2) / 5 + 1 in
  let m := if mp <? 10 then mp + 3 else mp - 9 in
  ((if m <=? 2 then yoe + era * 400 + 1 else yoe + era * 400), m, d).

(** Seconds of the wall clock of the zone since 1970-01-01 00:00:00. *)
Definition wallSeconds (t : Time) : Z :=
  daysFromCivil (Year t) (Month t) (Day t) * 86400
  + Hour t * 3600 + Minute t * 60 + Second t.

(** [t.Unix()]. *)
Definition Unix (t : Time) : Z := wallSeconds t - Offset t.

(** A 64-bit signed integer, wrapped around. *)
Definition wrap64 (x : Z) : Z := (x + 2 ^ 63) mod 2 ^ 64 - 2 ^ 63.

(** [t.UnixNano()], an [int64]. *)
Definition UnixNano (t : Time) : Z := wrap64 (Unix t * 1000000000 + Nanosecond t).

(** [t.Before(u)], [t.Equal(u)]: the instants are compared, not the zones. *)
Definition Before (t u : Time) : bool :=
  (Unix t <? Unix u) || ((Unix t =? Unix u) && (Nanosecond t <? Nanosecond u)).

Definition Equal (t u : Time) : bool :=
  (Unix t =? Unix u) && (Nanosecond t =? Nanosecond u).

(** [time.Date(year, month, day, hour, min, sec, nsec, loc)] for a zone of
    offset [offset]: values outside of their range are carried over. *)
Definition Date (year month day hour min sec nsec offset : Z) : Time :=
  let y := year + (month - 1) / 12 in
  let m := (month - 1) mod 12 + 1 in
  let total :=
    daysFromCivil y m day * 86400 + hour * 3600 + min * 60 + sec
    + nsec / 1000000000 in
  let '(y', m', d') := civilFromDays (total / 86400) in
  let rest := total mod 86400 in
  mkTime y' m' d' (rest / 3600) (rest mod 3600 / 60) (rest mod 60)
         (nsec mod 1000000000) offset.

(** *** Decimal fields *)

Definition digitChar (d : Z) : ascii := ascii_of_N (48 + Z.to_N d).

Definition digitVal (c : ascii) : Z := Z.of_N (byte_val c) - 48.

(** The [width] lowest decimal digits of [u], the highest first. *)
Fixpoint fixedDigits (width : nat) (u : Z) : string :=
  match width with
  | O => EmptyString
  | S w => String (digitChar (u / 10 ^ Z.of_nat w mod 10)) (fixedDigits w u)
  end.

(** [appendInt(b, x, width)]: [x] in decimal, padded with zeros on the left
    up to [width] digits. *)
Definition appendInt (x : Z) (width : nat) : string :=
  let u := Z.abs x in
  (if x <? 0 then "-" else EmptyString)
  +:+ (if u <? 10 ^ Z.of_nat width then fixedDigits width u else pretty u).

(** Exactly [n] digits at the head of [s]: their value, after [acc], and the
    rest of [s]. *)
Fixpoint takeDigits (n : nat) (acc : Z) (s : string) : option (Z * string) :=
  match n with
  | O => Some (acc, s)
  | S n' =>
      match s with
      | String c r =>
          if isDigit c then takeDigits n' (acc * 10 + digitVal c) r else None
      | EmptyString => None
      end
  end.

(** The closure [parseUint] of [parseRFC3339] on the next [n] bytes. *)
Definition parseUint (n : nat) (lo hi : Z) (s : string) : option (Z * string) :=
  match takeDigits n 0 s with
  | Some (x, r) => if (lo <=? x) && (x <=? hi) then Some (x, r) else None
  | None => None
  end.

Definition expect (c : ascii) (s : string) : option string :=
  match s with
  | String d r => if Ascii.eqb c d then Some r else None
  | EmptyString => None
  end.

(** The run of digits at the head of [s], and what follows it. *)
Fixpoint spanDigits (s : string) : string * string :=
  match s with
  | String c r =>
      if isDigit c then let '(ds, rest) := spanDigits r in (String c ds, rest)
      else (EmptyString, s)
  | EmptyString => (EmptyString, EmptyString)
  end.

Fixpoint digitsValue (acc : Z) (ds : string) : Z :=
  match ds with
  | String c r => digitsValue (acc * 10 + digitVal c) r
  | EmptyString => acc
  end.

(** [parseNanoseconds] on the digits that follow the separator: at most nine
    are read, and the value is scaled to nanoseconds. *)
Definition nanosOfDigits (ds : string) : Z :=
  let ds9 := Strings.take 9 ds in
  digitsValue 0 ds9 * 10 ^ (9 - Z.of_nat (String.length ds9)).

(** A fraction of a second at the head of [s], if there is one. *)
Definition parseFraction (sep : ascii -> bool) (s : string) : Z * string :=
  match s with
  | String c (String d r) =>
      if sep c && isDigit d then
        let '(ds, rest) := spanDigits (String d r) in (nanosOfDigits ds, rest)
      else (0, s)
  | _ => (0, s)
  end.

Fixpoint trimRightZeros (s : string) : string :=
  match s with
  | EmptyString => EmptyString
  | String c r =>
      match trimRightZeros r with
      | EmptyString => if Ascii.eqb c "0" then EmptyString else str1 c
      | r' => String c r'
      end
  end.

(** [appendNano] for the layout [.999999999]. *)
Definition appendNano (nanosec : Z) : string :=
  if nanosec =? 0 then EmptyString
  else "." +:+ trimRightZeros (appendInt nanosec 9).

(** *** RFC 3339, as [encoding/json] writes and reads a [Time] *)

(** The zone at the end of [appendFormatRFC3339]: [Z] for UTC, otherwise the
    offset in hours and minutes (the division by 60 is Go's, towards zero). *)
Definition zoneText (offset : Z) : string :=
  if offset =? 0 then "Z"
  else
    let zone := Z.quot offset 60 in
    (if zone <? 0 then "-" else "+")
    +:+ appendInt (Z.abs zone / 60) 2 +:+ ":" +:+ appendInt (Z.abs zone mod 60) 2.

(** [t.appendFormatRFC3339(b, true)]. *)
Definition formatRFC3339Nano (t : Time) : string :=
  appendInt (Year t) 4 +:+ "-" +:+ appendInt (Month t) 2 +:+ "-"
  +:+ appendInt (Day t) 2 +:+ "T" +:+ appendInt (Hour t) 2 +:+ ":"
  +:+ appendInt (Minute t) 2 +:+ ":" +:+ appendInt (Second t) 2
  +:+ appendNano (Nanosecond t) +:+ zoneText (Offset t).

(** [t.MarshalJSON()], without the quotes: the checks of
    [appendStrictRFC3339] on the year and on the hours of the zone. *)
Definition MarshalJSON (t : Time) : result string :=
  if (Year t <? 0) || (9999 <? Year t)
  then Err (timeMarshalError "year outside of range [0,9999]")
  else if negb (Offset t =? 0) && (24 <=? Z.abs (Z.quot (Offset t) 60) / 60)
  then Err (timeMarshalError "timezone hour outside of range [0,23]")
  else Ok (formatRFC3339Nano t).

(** The zone of [parseRFC3339]: [Z], or a sign, two digits of hours, a colon
    and two digits of minutes, and nothing after it. *)
Definition parseZone (s : string) : option Z :=
  if String.eqb s "Z" then Some 0
  else
    match s with
    | String sign r =>
        '(hr, r1) ← parseUint 2 0 23 r;
        r2 ← expect ":" r1;
        '(mm, r3) ← parseUint 2 0 59 r2;
        if String.eqb r3 EmptyString then
          if Ascii.eqb sign "-" then Some (- ((hr * 60 + mm) * 60))
          else if Ascii.eqb sign "+" then Some ((hr * 60 + mm) * 60)
          else None
        else None
    | EmptyString => None
    end.

(** [parseRFC3339(s, local)].  Go slices [s] at fixed positions after
    checking its length; reading the fields one after the other accepts the
    same texts. *)
Definition parseRFC3339 (s : string) : option Time :=
  '(year, s1) ← parseUint 4 0 9999 s;
  s2 ← expect "-" s1;
  '(month, s3) ← parseUint 2 1 12 s2;
  s4 ← expect "-" s3;
  '(day, s5) ← parseUint 2 1 (daysIn month year) s4;
  s6 ← expect "T" s5;
  '(hour, s7) ← parseUint 2 0 23 s6;
  s8 ← expect ":" s7;
  '(min, s9) ← parseUint 2 0 59 s8;
  s10 ← expect ":" s9;
  '(sec, s11) ← parseUint 2 0 59 s10;
  let '(nsec, s12) := parseFraction (Ascii.eqb ".") s11 in
  offset ← parseZone s12;
  Some (mkTime year month day hour min sec nsec offset).

(** [t.UnmarshalJSON(data)] on a value of a JSON text: [null] leaves [t] as
    it is, a string is read as RFC 3339, anything else is an error.  Two
    corners of Go are left out: the texts that [parseRFC3339] refuses and
    that the lenient [time.Parse] accepts (an hour of one digit, a comma
    before the fraction) are refused here, and a string written with JSON
    escapes, which Go refuses, is read here in its decoded form. *)
Definition UnmarshalJSON (t : Time) (v : json) : result Time :=
  match v with
  | JNull => Ok t
  | JString s =>
      match parseRFC3339 s with
      | Some t' => Ok t'
      | None => Err (timeParseError "2006-01-02T15:04:05Z07:00" s)
      end
  | _ => Err (errorString "Time.UnmarshalJSON: input is not a JSON string")
  end.

(** *** [time.Parse] for the layouts of [parseScheduleTime] *)

Inductive chunk : Set :=
| literal (prefix : string)
| stdLongYear | stdZeroMonth | stdZeroDay | stdHour | stdZeroMinute | stdZeroSecond.

(** The pieces that [nextStdChunk] cuts the four layouts into. *)
Definition chunksOf (layout : string) : list chunk :=
  if String.eqb layout "2006-01-02 15:04:05" then
    [stdLongYear; literal "-"; stdZeroMonth; literal "-"; stdZeroDay; literal " ";
     stdHour; literal ":"; stdZeroMinute; literal ":"; stdZeroSecond]
  else if String.eqb layout "2006-01-02 15:04" then
    [stdLongYear; literal "-"; stdZeroMonth; literal "-"; stdZeroDay; literal " ";
     stdHour; literal ":"; stdZeroMinute]
  else if String.eqb layout "01-02 15:04" then
    [stdZeroMonth; literal "-"; stdZeroDay; literal " "; stdHour; literal ":";
     stdZeroMinute]
  else if String.eqb layout "15:04" then [stdHour; literal ":"; stdZeroMinute]
  else [literal layout].

Fixpoint cutspace (s : string) : string :=
  match s with
  | String c r => if isSpace c then cutspace r else s
  | EmptyString => EmptyString
  end.

(** [skip(value, prefix)], one byte of the prefix at a time (no layout of
    the program has two spaces in a row): a space stands for any run of
    spaces, also an empty one at the end of the value. *)
Definition skip1 (value : string) (c : ascii) : option string :=
  if isSpace c then
    match value with
    | EmptyString => Some EmptyString
    | String d _ => if isSpace d then Some (cutspace value) else None
    end
  else expect c value.

Fixpoint skip (value prefix : string) : option string :=
  match prefix with
  | EmptyString => Some value
  | String c r => v ← skip1 value c; skip v r
  end.

(** [getnum(s, fixed)]: one or two digits, two if [fixed]. *)
Definition getnum (s : string) (fixed : bool) : option (Z * string) :=
  match s with
  | String a r =>
      if isDigit a then
        match r with
        | String b r' =>
            if isDigit b then Some (digitVal a * 10 + digitVal b, r')
            else if fixed then None else Some (digitVal a, r)
        | EmptyString => if fixed then None else Some (digitVal a, r)
        end
      else None
  | EmptyString => None
  end.

(** What [Parse] has read so far. *)
Record fields : Type := mkFields {
  fYear : Z; fMonth : Z; fDay : Z; fHour : Z; fMin : Z; fSec : Z; fNsec : Z
}.

Definition parseChunk (c : chunk) (st : fields * string) : option (fields * string) :=
  let '(f, value) := st in
  match c with
  | literal prefix => v ← skip value prefix; Some (f, v)
  | stdLongYear =>
      '(y, v) ← takeDigits 4 0 value;
      Some (mkFields y (fMonth f) (fDay f) (fHour f) (fMin f) (fSec f) (fNsec f), v)
  | stdZeroMonth =>
      '(m, v) ← getnum value true;
      if (m <=? 0) || (12 <? m) then None
      else Some (mkFields (fYear f) m (fDay f) (fHour f) (fMin f) (fSec f) (fNsec f), v)
  | stdZeroDay =>
      '(d, v) ← getnum value true;
      Some (mkFields (fYear f) (fMonth f) d (fHour f) (fMin f) (fSec f) (fNsec f), v)
  | stdHour =>
      '(h, v) ← getnum value false;
      if 24 <=? h then None
      else Some (mkFields (fYear f) (fMonth f) (fDay f) h (fMin f) (fSec f) (fNsec f), v)
  | stdZeroMinute =>
      '(m, v) ← getnum value true;
      if 60 <=? m then None
      else Some (mkFields (fYear f) (fMonth f) (fDay f) (fHour f) m (fSec f) (fNsec f), v)
  | stdZeroSecond =>
      '(sec, v) ← getnum value true;
      if 60 <=? sec then None
      else
        let '(nsec, v') := parseFraction (fun c => Ascii.eqb c "." || Ascii.eqb c ",") v in
        Some (mkFields (fYear f) (fMonth f) (fDay f) (fHour f) (fMin f) sec nsec, v')
  end.

Fixpoint parseChunks (cs : list chunk) (st : fields * string) : option (fields * string) :=
  match cs with
  | [] => Some st
  | c :: cs' => st' ← parseChunk c st; parseChunks cs' st'
  end.

(** [time.Parse(layout, value)]: the fields that the layout does not name
    keep their defaults, the day is checked against the month, and the time
    is in UTC. *)
Definition Parse (layout value : string) : result Time :=
  match parseChunks (chunksOf layout) (mkFields 0 (-1) (-1) 0 0 0 0, value) with
  | Some (f, EmptyString) =>
      let month := if fMonth f <? 0 then 1 else fMonth f in
      let day := if fDay f <? 0 then 1 else fDay f in
      if (day <? 1) || (daysIn month (fYear f) <? day)
      then Err (timeParseError layout value)
      else Ok (mkTime (fYear f) month day (fHour f) (fMin f) (fSec f) (fNsec f) 0)
  | _ => Err (timeParseError layout value)
  end.

(** The times that Go can hold and that RFC 3339 can write: a date of the
    calendar in the years 0 to 9999, a time of day, and a zone of whole
    minutes less than a day away from UTC. *)
Definition isValid (t : Time) : bool :=
  (0 <=? Year t) && (Year t <=? 9999) && (1 <=? Month t) && (Month t <=? 12)
  && (1 <=? Day t) && (Day t <=? daysIn (Month t) (Year t))
  && (0 <=? Hour t) && (Hour t <=? 23) && (0 <=? Minute t) && (Minute t <=? 59)
  && (0 <=? Second t) && (Second t <=? 59)
  && (0 <=? Nanosecond t) && (Nanosecond t <=? 999999999)
  && (Offset t mod 60 =? 0) && (-86400 <? Offset t) && (Offset t <? 86400).

(** A text that does not start with a digit. *)
Definition noDigitAhead (s : string) : Prop :=
  match s with
  | String c _ => isDigit c = false
  | EmptyString => True
  end.

End Time.

(** ** Package [config] *)

Module Config.

Record Config : Type := mkConfig {
  APIKey : string;
  APISecret : string;
  AccessToken : string;
  AccessSecret : string
}.

End Config.

(** ** The world outside of the program

    What the program reads from its environment is given by oracles; those
    that may answer differently from one call to the next are indexed by the
    number of calls made so far.  What the program prints is not modelled. *)

Record Request : Type := mkRequest {
  reqMethod : string;
  reqURL : string;
  reqContentType : string;
  reqAuthorization : string;
  reqBody : payload
}.

(** The status of a reply and what [io.ReadAll] gets from its body. *)
Record Response : Type := mkResponse {
  StatusCode : Z;
  RespBody : result payload
}.

(** The state of a file: absent, present but not readable, or its content. *)
Inductive file : Type :=
| Missing
| Unreadable
| Stored (data : payload).

Record World : Type := mkWorld {
  steps : nat;
  clock : nat -> Time.Time;
  entropy : nat -> nat -> result string;
  network : nat -> Request -> result Response;
  mediaFiles : string -> result string;
  mimeTypes : string -> string -> string;
  schedule : file;
  readOnly : bool
}.

(** One more call of the environment has been made. *)
Definition tick (w : World) : World :=
  mkWorld (S (steps w)) (clock w) (entropy w) (network w) (mediaFiles w)
          (mimeTypes w) (schedule w) (readOnly w).

Definition setSchedule (f : file) (w : World) : World :=
  mkWorld (steps w) (clock w) (entropy w) (network w) (mediaFiles w)
          (mimeTypes w) f (readOnly w).

(** [time.Now()]. *)
Definition timeNow (w : World) : Time.Time * World := (clock w (steps w), tick w).

(** [rand.Read(buf)] on a buffer of [n] bytes. *)
Definition randRead (n : nat) (w : World) : result string * World :=
  (entropy w (steps w) n, tick w).

(** [client.Do(req)]. *)
Definition clientDo (req : Request) (w : World) : result Response * World :=
  (network w (steps w) req, tick w).

(** * The program: signing requests *)

Definition mediaUploadEndpoint : string :=
  "https://upload.twitter.com/1.1/media/upload.json".
Definition tweetEndpoint : string := "https://api.twitter.com/2/tweets".

Definition percentEncode (s : string) : string :=
  Strings.ReplaceAll (Url.QueryEscape s) "+" "%20".

Definition generateNonce (w : World) : result string * World :=
  let '(r, w1) := randRead 16 w in
  match r with
  | Err err => (Err (wrapError "generating nonce" err), w1)
  | Ok buf => (Ok (Hex.EncodeToString buf), w1)
  end.

Definition normalizeURL (raw : string) : result (string * Url.Values) :=
  match Url.Parse raw with
  | Err err => Err (wrapError "parsing URL" err)
  | Ok parsed =>
      let scheme := Strings.ToLower (Url.Scheme parsed) in
      let host := Strings.ToLower (Url.Host parsed) in
      let path := Url.EscapedPath parsed in
      let path := if String.eqb path EmptyString then "/" else path in
      Ok (scheme +:+ "://" +:+ host +:+ path, Url.Query parsed)
  end.

(** The keys of a Go map, in the order in which [range] happens to visit
    them. *)
Definition mapKeys {V : Type} (m : gmap string V) : list string :=
  (map_to_list m).*1.

(** One turn of the inner loop of [encodeValues]: the flag [first] and the
    builder. *)
Definition writePair (k : string) (st : bool * string) (v : string) : bool * string :=
  let '(first, builder) := st in
  (false,
   (if first then builder else builder +:+ "&")
   +:+ percentEncode k +:+ "=" +:+ percentEncode v).

Definition encodeValues (values : Url.Values) : string :=
  if Nat.eqb (size values) 0 then EmptyString
  else
    let keys := Sort.Strings (mapKeys values) in
    snd (fold_left
           (fun st k =>
              let vs := Sort.Strings (default [] (values !! k)) in
              fold_left (writePair k) vs st)
           keys (true, EmptyString)).

(** [values.Encode()] of [net/url]: the keys in order, each value escaped
    with [QueryEscape]. *)
Definition valuesEncode (values : Url.Values) : string :=
  Strings.Join
    (flat_map
       (fun k => map (fun v => Url.QueryEscape k +:+ "=" +:+ Url.QueryEscape v)
                     (default [] (values !! k)))
       (Sort.Strings (mapKeys values)))
    "&".

(** [for k, v := range params { values.Add(k, v) }]. *)
Definition addParams (params : gmap string string) (values : Url.Values) : Url.Values :=
  map_fold (fun k v acc => Url.Add acc k v) values params.

(** [for k, vs := range queryParams { for _, v := range vs { values.Add(k, v) } }]. *)
Definition addQuery (queryParams : Url.Values) (values : Url.Values) : Url.Values :=
  map_fold (fun k vs acc => fold_left (fun acc v => Url.Add acc k v) vs acc)
           values queryParams.

Definition encodeParams (params : gmap string string) : string :=
  if Nat.eqb (size params) 0 then EmptyString
  else valuesEncode (addParams params ∅).

Definition oauthParamsOf (cfg : Config.Config) (nonce timestamp : string)
  : gmap string string :=
  <["oauth_consumer_key" := Config.APIKey cfg]>
  (<["oauth_nonce" := nonce]>
  (<["oauth_signature_method" := "HMAC-SHA1"]>
  (<["oauth_timestamp" := timestamp]>
  (<["oauth_token" := Config.AccessToken cfg]>
  (<["oauth_version" := "1.0"]> ∅))))).

Definition signingValuesOf (params oauthParams : gmap string string)
    (queryParams : Url.Values) : Url.Values :=
  addQuery queryParams (addParams oauthParams (addParams params ∅)).

(** One item of the header: the encoded key, [=], and the encoded value
    between double quotes. *)
Definition headerValue (k v : string) : string :=
  percentEncode k +:+ "=" +:+ str1 quote +:+ percentEncode v +:+ str1 quote.

(** [buildOAuth1Header] once the nonce and the timestamp are known. *)
Definition buildOAuth1HeaderWith (nonce timestamp method rawURL : string)
    (params : gmap string string) (cfg : Config.Config) : result string :=
  let oauthParams := oauthParamsOf cfg nonce timestamp in
  '(baseURL, queryParams) ← normalizeURL rawURL;
  let signingValues := signingValuesOf params oauthParams queryParams in
  let parameterString := encodeValues signingValues in
  let baseString :=
    Strings.ToUpper method +:+ "&" +:+ percentEncode baseURL +:+ "&"
    +:+ percentEncode parameterString in
  let signingKey :=
    percentEncode (Config.APISecret cfg) +:+ "&"
    +:+ percentEncode (Config.AccessSecret cfg) in
  let signature := Base64.EncodeToString (Hmac.SumSha1 signingKey baseString) in
  let oauthParams := <["oauth_signature" := signature]> oauthParams in
  let keys := Sort.Strings (mapKeys oauthParams) in
  let headerValues :=
    map (fun k => headerValue k (default EmptyString (oauthParams !! k))) keys in
  Ok ("OAuth " +:+ Strings.Join headerValues ", ").

Definition buildOAuth1Header (method rawURL : string)
    (params : gmap string string) (cfg : Config.Config) (w : World)
  : result string * World :=
  let '(r, w1) := generateNonce w in
  match r with
  | Err err => (Err err, w1)
  | Ok nonce =>
      let '(now, w2) := timeNow w1 in
      let timestamp := pretty (Time.Unix now) in
      (buildOAuth1HeaderWith nonce timestamp method rawURL params cfg, w2)
  end.

(** ** Package [encoding/json]: decoding into the structures of the program *)

Module Json.

(** [foldName]: ASCII letters in upper case; the two letters outside of
    ASCII that fold to an ASCII one, U+017F and U+212A, as [S] and [K]. *)
Fixpoint foldName (s : string) : string :=
  match s with
  | EmptyString => EmptyString
  | String c r =>
      match r with
      | String d r1 =>
          if (byte_val c =? 197)%N && (byte_val d =? 191)%N
          then String "S" (foldName r1)
          else
            match r1 with
            | String e r2 =>
                if (byte_val c =? 226)%N && (byte_val d =? 132)%N
                   && (byte_val e =? 170)%N
                then String "K" (foldName r2)
                else String (Strings.toUpperByte c) (foldName r)
            | EmptyString => String (Strings.toUpperByte c) (foldName r)
            end
      | EmptyString => String (Strings.toUpperByte c) EmptyString
      end
  end.

(** Does the key of a JSON object name the field tagged [name]? *)
Definition sameField (key name : string) : bool :=
  String.eqb key name || String.eqb (foldName key) (foldName name).

(** A JSON value stored into a field of type [string]. *)
Definition intoString (field : string) (cur : string) (v : json) : result string :=
  match v with
  | JNull => Ok cur
  | JString s => Ok s
  | _ => Err (jsonTypeError field)
  end.

(** The members of an object stored one after the other into a structure. *)
Fixpoint intoStruct {A : Type} (member : A -> string * json -> result A)
    (cur : A) (members : list (string * json)) : result A :=
  match members with
  | [] => Ok cur
  | kv :: rest => next ← member cur kv; intoStruct member next rest
  end.

Fixpoint mapM {A B : Type} (f : A -> result B) (l : list A) : result (list B) :=
  match l with
  | [] => Ok []
  | x :: rest => y ← f x; ys ← mapM f rest; Ok (y :: ys)
  end.

End Json.

(** ** Go slices: [nil] and the others *)

Inductive slice (A : Type) : Type :=
| nilSlice
| Slice (elems : list A).

Arguments nilSlice {A}.
Arguments Slice {A} elems.

Definition elemsOf {A : Type} (s : slice A) : list A :=
  match s with
  | nilSlice => []
  | Slice l => l
  end.

(** [append(s, x)]. *)
Definition append {A : Type} (s : slice A) (x : A) : slice A := Slice (elemsOf s ++ [x]).

Definition len {A : Type} (s : slice A) : nat := length (elemsOf s).

(** * The program: the API client *)

(** [json.Marshal(payload)] of a [tweetPayload]; [media] is left out when
    there is no media ID. *)
Definition tweetPayload (text : string) (mediaIDs : slice string) : json :=
  JObject
    (("text", JString text)
     :: match elemsOf mediaIDs with
        | [] => []
        | ids => [("media", JObject [("media_ids", JArray (map JString ids))])]
        end).

(** [http.NewRequest(method, url, body)] with a valid method: it fails when
    the URL does not parse. *)
Definition newRequest (method url : string) (body : payload) : result Request :=
  match Url.Parse url with
  | Err err => Err err
  | Ok _ => Ok (mkRequest method url EmptyString EmptyString body)
  end.

Definition setContentType (v : string) (req : Request) : Request :=
  mkRequest (reqMethod req) (reqURL req) v (reqAuthorization req) (reqBody req).

Definition setAuthorization (v : string) (req : Request) : Request :=
  mkRequest (reqMethod req) (reqURL req) (reqContentType req) v (reqBody req).

(** The first part of [postTweet]: the signed request, ready to be sent. *)
Definition tweetRequest (cfg : Config.Config) (text : string)
    (mediaIDs : slice string) (w : World) : result Request * World :=
  let body := Json (tweetPayload text mediaIDs) in
  match newRequest "POST" tweetEndpoint body with
  | Err err => (Err (wrapError "creating tweet request" err), w)
  | Ok req =>
      let req := setContentType "application/json" req in
      let '(r, w1) := buildOAuth1Header "POST" tweetEndpoint ∅ cfg w in
      match r with
      | Err err => (Err err, w1)
      | Ok header => (Ok (setAuthorization header req), w1)
      end
  end.

(** The second part of [postTweet] and of [signedPost]: the request is sent,
    the body of the reply is read, a status from 300 up is an error. *)
Definition sendRequest (doing reading : string) (req : Request) (w : World)
  : result payload * World :=
  let '(r, w1) := clientDo req w in
  match r with
  | Err err => (Err (wrapError doing err), w1)
  | Ok resp =>
      match RespBody resp with
      | Err err => (Err (wrapError reading err), w1)
      | Ok respBody =>
          if 300 <=? StatusCode resp
          then (Err (apiError (StatusCode resp) respBody), w1)
          else (Ok respBody, w1)
      end
  end.

Definition postTweet (cfg : Config.Config) (text : string)
    (mediaIDs : slice string) (w : World) : result unit * World :=
  let '(r, w1) := tweetRequest cfg text mediaIDs w in
  match r with
  | Err err => (Err err, w1)
  | Ok req =>
      let '(r2, w2) := sendRequest "posting tweet" "reading tweet response" req w1 in
      match r2 with
      | Err err => (Err err, w2)
      | Ok _ => (Ok tt, w2)
      end
  end.

Definition signedPost (cfg : Config.Config) (endpoint : string)
    (params : gmap string string) (w : World) : result payload * World :=
  let body := encodeParams params in
  match newRequest "POST" endpoint (Raw body) with
  | Err err => (Err (wrapError "creating request" err), w)
  | Ok req =>
      let req := setContentType "application/x-www-form-urlencoded" req in
      let '(r, w1) := buildOAuth1Header "POST" endpoint params cfg w in
      match r with
      | Err err => (Err err, w1)
      | Ok header =>
          sendRequest "performing request" "reading response"
                      (setAuthorization header req) w1
      end
  end.

(** The reply to a media upload, as [uploadMedia] declares it. *)
Record mediaReply : Type := mkMediaReply {
  MediaIDString : string;
  ErrorMessage : string;
  Errors : slice string
}.

Definition intoMessage (cur : string) (kv : string * json) : result string :=
  if Json.sameField kv.1 "message" then Json.intoString "message" cur kv.2
  else Ok cur.

Definition intoMessageStruct (cur : string) (v : json) : result string :=
  match v with
  | JNull => Ok cur
  | JObject members => Json.intoStruct intoMessage cur members
  | _ => Err (jsonTypeError "error")
  end.

Definition intoMediaReply (cur : mediaReply) (kv : string * json) : result mediaReply :=
  let '(key, v) := kv in
  if Json.sameField key "media_id_string" then
    id ← Json.intoString "media_id_string" (MediaIDString cur) v;
    Ok (mkMediaReply id (ErrorMessage cur) (Errors cur))
  else if Json.sameField key "error" then
    msg ← intoMessageStruct (ErrorMessage cur) v;
    Ok (mkMediaReply (MediaIDString cur) msg (Errors cur))
  else if Json.sameField key "errors" then
    match v with
    | JNull => Ok cur
    | JArray elems =>
        msgs ← Json.mapM (intoMessageStruct EmptyString) elems;
        Ok (mkMediaReply (MediaIDString cur) (ErrorMessage cur) (Slice msgs))
    | _ => Err (jsonTypeError "errors")
    end
  else Ok cur.

(** [json.Unmarshal(body, &resp)] in [uploadMedia]. *)
Definition unmarshalMediaReply (body : payload) : result mediaReply :=
  match body with
  | Raw _ => Err jsonSyntaxError
  | Json JNull => Ok (mkMediaReply EmptyString EmptyString nilSlice)
  | Json (JObject members) =>
      Json.intoStruct intoMediaReply (mkMediaReply EmptyString EmptyString nilSlice)
                      members
  | Json _ => Err (jsonTypeError "")
  end.

Definition uploadMedia (cfg : Config.Config) (path : string) (w : World)
  : result string * World :=
  match mediaFiles w path with
  | Err err => (Err (wrapError "reading media" err), w)
  | Ok data =>
      let mimeType := mimeTypes w path data in
      let params : gmap string string :=
        {["media_data" := Base64.EncodeToString data]} in
      let params :=
        if Strings.HasPrefix mimeType "image/"
        then <["media_category" := "tweet_image"]> params else params in
      let '(r, w1) := signedPost cfg mediaUploadEndpoint params w in
      match r with
      | Err err => (Err (wrapError "uploading media" err), w1)
      | Ok body =>
          match unmarshalMediaReply body with
          | Err err => (Err (wrapError "decoding media upload response" err), w1)
          | Ok resp =>
              if String.eqb (MediaIDString resp) EmptyString then
                if negb (String.eqb (ErrorMessage resp) EmptyString)
                then (Err (mediaUploadFailed (Raw (ErrorMessage resp))), w1)
                else
                  match elemsOf (Errors resp) with
                  | msg :: _ =>
                      if negb (String.eqb msg EmptyString)
                      then (Err (mediaUploadFailed (Raw msg)), w1)
                      else (Err (mediaUploadFailed body), w1)
                  | [] => (Err (mediaUploadFailed body), w1)
                  end
              else (Ok (MediaIDString resp), w1)
          end
      end
  end.

(** * The program: the scheduled posts *)

Record scheduledTweet : Type := mkScheduledTweet {
  Text : string;
  Image : string;
  ScheduleTime : Time.Time;
  ID : string
}.

Definition storePath : string := "scheduled_tweets.json".

(** *** The persisted form *)

Definition intoScheduledTweet (cur : scheduledTweet) (kv : string * json)
  : result scheduledTweet :=
  let '(key, v) := kv in
  if Json.sameField key "text" then
    x ← Json.intoString "text" (Text cur) v;
    Ok (mkScheduledTweet x (Image cur) (ScheduleTime cur) (ID cur))
  else if Json.sameField key "image" then
    x ← Json.intoString "image" (Image cur) v;
    Ok (mkScheduledTweet (Text cur) x (ScheduleTime cur) (ID cur))
  else if Json.sameField key "schedule_time" then
    x ← Time.UnmarshalJSON (ScheduleTime cur) v;
    Ok (mkScheduledTweet (Text cur) (Image cur) x (ID cur))
  else if Json.sameField key "id" then
    x ← Json.intoString "id" (ID cur) v;
    Ok (mkScheduledTweet (Text cur) (Image cur) (ScheduleTime cur) x)
  else Ok cur.

Definition zeroTweet : scheduledTweet :=
  mkScheduledTweet EmptyString EmptyString Time.zero EmptyString.

Definition unmarshalTweet (v : json) : result scheduledTweet :=
  match v with
  | JNull => Ok zeroTweet
  | JObject members => Json.intoStruct intoScheduledTweet zeroTweet members
  | _ => Err (jsonTypeError "scheduledTweet")
  end.

(** [json.Unmarshal(data, &tweets)] on a JSON value. *)
Definition unmarshalTweets (v : json) : result (slice scheduledTweet) :=
  match v with
  | JNull => Ok nilSlice
  | JArray elems => l ← Json.mapM unmarshalTweet elems; Ok (Slice l)
  | _ => Err (jsonTypeError "[]scheduledTweet")
  end.

(** A [scheduledTweet] as [encoding/json] writes it: the fields in the order
    of the structure, [image] left out when empty. *)
Definition marshalTweet (t : scheduledTweet) : result json :=
  ts ← Time.MarshalJSON (ScheduleTime t);
  Ok (JObject
        ([("text", JString (Text t))]
         ++ (if String.eqb (Image t) EmptyString then []
             else [("image", JString (Image t))])
         ++ [("schedule_time", JString ts); ("id", JString (ID t))])).

(** [json.MarshalIndent(tweets, "", "  ")]: a nil slice is written [null]. *)
Definition marshalTweets (tweets : slice scheduledTweet) : result json :=
  match tweets with
  | nilSlice => Ok JNull
  | Slice l => vs ← Json.mapM marshalTweet l; Ok (JArray vs)
  end.

(** *** The store *)

Definition loadScheduledTweets (w : World) : result (slice scheduledTweet) :=
  match schedule w with
  | Missing => Ok (Slice [])
  | Unreadable => Err (ioError "open" storePath)
  | Stored (Raw _) => Err jsonSyntaxError
  | Stored (Json v) => unmarshalTweets v
  end.

(** [os.WriteFile("scheduled_tweets.json", data, 0644)]. *)
Definition writeStore (data : payload) (w : World) : result unit * World :=
  if readOnly w then (Err (ioError "open" storePath), w)
  else (Ok tt, setSchedule (Stored data) w).

Definition saveScheduledTweets (tweets : slice scheduledTweet) (w : World)
  : result unit * World :=
  match marshalTweets tweets with
  | Err err => (Err err, w)
  | Ok data => writeStore (Json data) w
  end.

Definition saveScheduledTweet (tweet : scheduledTweet) (w : World)
  : result unit * World :=
  let tweets :=
    match loadScheduledTweets w with
    | Err _ => Slice []
    | Ok tweets => tweets
    end in
  saveScheduledTweets (append tweets tweet) w.

(** *** Creating a scheduled post *)

Definition formats : list string :=
  ["2006-01-02 15:04:05"; "2006-01-02 15:04"; "01-02 15:04"; "15:04"].

(** The loop of [parseScheduleTime] over the layouts that are left. *)
Fixpoint parseWith (now : Time.Time) (scheduleAt : string) (layouts : list string)
  : result Time.Time :=
  match layouts with
  | [] =>
      Err (errorString
             "invalid time format. Use: 'YYYY-MM-DD HH:MM', 'MM-DD HH:MM', or 'HH:MM'")
  | format :: rest =>
      match Time.Parse format scheduleAt with
      | Ok t =>
          if String.eqb format "15:04" then
            Ok (Time.Date (Time.Year now) (Time.Month now) (Time.Day now)
                          (Time.Hour t) (Time.Minute t) 0 0 (Time.Offset now))
          else if String.eqb format "01-02 15:04" then
            Ok (Time.Date (Time.Year now) (Time.Month t) (Time.Day t)
                          (Time.Hour t) (Time.Minute t) 0 0 (Time.Offset now))
          else Ok t
      | Err _ => parseWith now scheduleAt rest
      end
  end.

Definition parseScheduleTime (scheduleAt : string) (w : World)
  : result Time.Time * World :=
  let '(now, w1) := timeNow w in
  (parseWith now scheduleAt formats, w1).

Definition generateTweetID (w : World) : string * World :=
  let '(now, w1) := timeNow w in
  ("tweet_" +:+ pretty (Time.UnixNano now), w1).

Definition handleScheduledTweet (text image scheduleAt : string) (w : World)
  : result unit * World :=
  let '(r, w1) := parseScheduleTime scheduleAt w in
  match r with
  | Err err => (Err (wrapError "invalid schedule time" err), w1)
  | Ok scheduleTime =>
      let '(now, w2) := timeNow w1 in
      if Time.Before scheduleTime now
      then (Err (errorString "schedule time must be in the future"), w2)
      else
        let '(id, w3) := generateTweetID w2 in
        let tweet := mkScheduledTweet text image scheduleTime id in
        let '(r2, w4) := saveScheduledTweet tweet w3 in
        match r2 with
        | Err err => (Err (wrapError "saving scheduled tweet" err), w4)
        | Ok _ => (Ok tt, w4)
        end
  end.

(** *** Listing and cancelling *)

(** The loop of [listScheduledTweets]: each post with its status, [true]
    for overdue; the clock is read once for each post. *)
Fixpoint listStatuses (tweets : list scheduledTweet) (w : World)
  : list (scheduledTweet * bool) * World :=
  match tweets with
  | [] => ([], w)
  | tweet :: rest =>
      let '(now, w1) := timeNow w in
      let '(lines, w2) := listStatuses rest w1 in
      ((tweet, Time.Before (ScheduleTime tweet) now) :: lines, w2)
  end.

Definition listScheduledTweets (w : World)
  : result (list (scheduledTweet * bool)) * World :=
  match loadScheduledTweets w with
  | Err err => (Err (wrapError "loading scheduled tweets" err), w)
  | Ok tweets =>
      let '(lines, w1) := listStatuses (elemsOf tweets) w in (Ok lines, w1)
  end.

(** The loop of [cancelScheduledTweet]: the posts that are kept, and whether
    the identifier was found. *)
Fixpoint cancelLoop (tweetID : string) (tweets : list scheduledTweet)
    (st : slice scheduledTweet * bool) : slice scheduledTweet * bool :=
  match tweets with
  | [] => st
  | tweet :: rest =>
      let '(updatedTweets, found) := st in
      if negb (String.eqb (ID tweet) tweetID)
      then cancelLoop tweetID rest (append updatedTweets tweet, found)
      else cancelLoop tweetID rest (updatedTweets, true)
  end.

Definition cancelScheduledTweet (tweetID : string) (w : World)
  : result unit * World :=
  match loadScheduledTweets w with
  | Err err => (Err (wrapError "loading scheduled tweets" err), w)
  | Ok tweets =>
      let '(updatedTweets, found) :=
        cancelLoop tweetID (elemsOf tweets) (nilSlice, false) in
      if negb found
      then (Err (errorString ("tweet with ID " +:+ tweetID +:+ " not found")), w)
      else
        let '(r, w1) := saveScheduledTweets updatedTweets w in
        match r with
        | Err err => (Err (wrapError "saving updated tweets" err), w1)
        | Ok _ => (Ok tt, w1)
        end
  end.

(** *** The daemon *)

(** A post is due when its time is not after [now]. *)
Definition isDue (now : Time.Time) (tweet : scheduledTweet) : bool :=
  Time.Before (ScheduleTime tweet) now || Time.Equal (ScheduleTime tweet) now.

(** One delivery attempt: the upload of the image, if there is one, and the
    post. *)
Definition deliver (cfg : Config.Config) (tweet : scheduledTweet) (w : World)
  : result unit * World :=
  if negb (String.eqb (Image tweet) EmptyString) then
    let '(r, w1) := uploadMedia cfg (Image tweet) w in
    match r with
    | Err err => (Err err, w1)
    | Ok id => postTweet cfg (Text tweet) (append nilSlice id) w1
    end
  else postTweet cfg (Text tweet) nilSlice w.

(** The loop over the posts of one pass of the daemon. *)
Fixpoint deliverDue (cfg : Config.Config) (now : Time.Time)
    (tweets : list scheduledTweet) (st : slice scheduledTweet * World)
  : slice scheduledTweet * World :=
  match tweets with
  | [] => st
  | tweet :: rest =>
      let '(remainingTweets, w) := st in
      if isDue now tweet then
        let '(r, w1) := deliver cfg tweet w in
        match r with
        | Err _ => deliverDue cfg now rest (append remainingTweets tweet, w1)
        | Ok _ => deliverDue cfg now rest (remainingTweets, w1)
        end
      else deliverDue cfg now rest (append remainingTweets tweet, w)
  end.

(** One turn of the loop of [runSchedulerDaemon], without its sleep. *)
Definition daemonTick (cfg : Config.Config) (w : World) : World :=
  match loadScheduledTweets w with
  | Err _ => w
  | Ok tweets =>
      let '(now, w1) := timeNow w in
      let '(remainingTweets, w2) :=
        deliverDue cfg now (elemsOf tweets) (nilSlice, w1) in
      if negb (Nat.eqb (len remainingTweets) (len tweets))
      then snd (saveScheduledTweets remainingTweets w2)
      else w2
  end.

(** The first [n] turns of the loop of [runSchedulerDaemon], which has no end
    of its own. *)
Fixpoint daemonLoop (cfg : Config.Config) (n : nat) (w : World) : World :=
  match n with
  | O => w
  | S k => daemonLoop cfg k (daemonTick cfg w)
  end.

(** * What the specification says, and worlds to run the program in *)

(** How one byte comes out of [percentEncode]. *)
Definition encodedByte (c : ascii) : string :=
  Strings.replaceFrom 0 (Url.escapeWrite (str1 c) Url.encodeQueryComponent) "+" "%20".

(** The entries of a multimap, as a flat list. *)
Definition flatten (values : Url.Values) : list (string * string) :=
  flat_map (fun kvs => map (pair kvs.1) kvs.2) (map_to_list values).

(** The entries of the three sources of parameters, as one flat list. *)
Definition entriesOf (params oauthParams : gmap string string)
    (queryParams : Url.Values) : list (string * string) :=
  map_to_list params ++ map_to_list oauthParams ++ flatten queryParams.

(** Pairs ordered by key, then by value. *)
Definition pairLeb (a b : string * string) : bool :=
  if String.eqb a.1 b.1 then String.leb a.2 b.2 else String.leb a.1 b.1.

Definition pair_le (a b : string * string) : Prop := pairLeb a b = true.

#[global] Instance pair_le_dec : RelDecision pair_le :=
  fun a b => bool_dec (pairLeb a b) true.

Definition encodeEntry (kv : string * string) : string * string :=
  (percentEncode kv.1, percentEncode kv.2).

Definition joinEntry (kv : string * string) : string := kv.1 +:+ "=" +:+ kv.2.

(** The parameter string in the words of the specification: every key and
    value of the union is percent-encoded, the entries are sorted by encoded
    key, then by encoded value, and joined. *)
Definition specParameterString (params oauthParams : gmap string string)
    (queryParams : Url.Values) : string :=
  Strings.Join
    (map joinEntry
         (merge_sort pair_le
            (map encodeEntry (entriesOf params oauthParams queryParams))))
    "&".

(** The entries in the order in which the loops of [encodeValues] visit
    them. *)
Definition sortedEntries (values : Url.Values) : list (string * string) :=
  flat_map (fun k => map (pair k) (Sort.Strings (default [] (values !! k))))
           (Sort.Strings (mapKeys values)).

(** [writePair] on an entry, what it writes for it, and what is written for
    the entries after the first one. *)
Definition writeEntry (st : bool * string) (kv : string * string) : bool * string :=
  writePair kv.1 st kv.2.

Definition written (kv : string * string) : string := joinEntry (encodeEntry kv).

Fixpoint followers (l : list (string * string)) : string :=
  match l with
  | [] => EmptyString
  | kv :: rest => "&" +:+ written kv +:+ followers rest
  end.

(** The [Authorization] header of a request that was built, or the error. *)
Definition authorizationOf (r : result Request * World) : result string * World :=
  match r.1 with
  | Ok req => (Ok (reqAuthorization req), r.2)
  | Err err => (Err err, r.2)
  end.

(** A world: the clock reads 2024-06-01 10:00:00 UTC and moves on by one
    second at each call, the random source gives [n] bytes [0x2a], the server
    accepts every request, no media file and no schedule exist. *)
Definition noon : Time.Time := Time.mkTime 2024 6 1 10 0 0 0 0.

Definition okReply : Response :=
  mkResponse 200 (Ok (Json (JObject [("media_id_string", JString "710511363345354753")]))).

Definition quietWorld : World :=
  mkWorld 0
    (fun i => Time.mkTime 2024 6 1 10 0 (Z.of_nat i) 0 0)
    (fun _ n => Ok (string_of_list_ascii (replicate n "*"%char)))
    (fun _ _ => Ok okReply)
    (fun path => Err (ErrNotExist path))
    (fun _ _ => "application/octet-stream")
    Missing
    false.

Definition someConfig : Config.Config :=
  Config.mkConfig "key" "secret" "token" "token secret".

(** Body parameters with a key that holds a byte above the letters. *)
Definition pipeParams : gmap string string := <["a|" := "1"]> (<["aa" := "2"]> ∅).

(** The scheduled posts whose time can be written (all those that were
    read from a document can). *)
Definition validTweet (t : scheduledTweet) : Prop :=
  Time.isValid (ScheduleTime t) = true.

(** [sameStore w w']: the schedule document is the same in both worlds. *)
Definition sameStore (w w' : World) : Prop :=
  schedule w' = schedule w /\ readOnly w' = readOnly w.

(** One pass of the daemon over the posts, in the words of the
    specification: a post that is not due is retained; a due post is
    attempted, in the world left by the attempts before it, and is retained
    when the attempt fails and dropped when it succeeds. *)
Inductive Attempts (cfg : Config.Config) (now : Time.Time)
  : World -> list scheduledTweet -> list scheduledTweet -> World -> Prop :=
| attempts_done w : Attempts cfg now w [] [] w
| attempts_not_due w tweet rest kept w' :
    isDue now tweet = false ->
    Attempts cfg now w rest kept w' ->
    Attempts cfg now w (tweet :: rest) (tweet :: kept) w'
| attempts_failed w tweet rest kept err w1 w' :
    isDue now tweet = true ->
    deliver cfg tweet w = (Err err, w1) ->
    Attempts cfg now w1 rest kept w' ->
    Attempts cfg now w (tweet :: rest) (tweet :: kept) w'
| attempts_delivered w tweet rest kept w1 w' :
    isDue now tweet = true ->
    deliver cfg tweet w = (Ok tt, w1) ->
    Attempts cfg now w1 rest kept w' ->
    Attempts cfg now w (tweet :: rest) kept w'.

(** A schedule of three posts that are due at [noon], and a world that holds
    it and in which the network fails for the post ["second"] only. *)
Definition threeTweets : list scheduledTweet :=
  [mkScheduledTweet "first" EmptyString (Time.mkTime 2024 6 1 9 0 0 0 0) "tweet_1";
   mkScheduledTweet "second" EmptyString (Time.mkTime 2024 6 1 9 30 0 0 0) "tweet_2";
   mkScheduledTweet "third" EmptyString noon "tweet_3"].

Definition threeTweetsDocument : json :=
  JArray
    [JObject [("text", JString "first");
              ("schedule_time", JString "2024-06-01T09:00:00Z");
              ("id", JString "tweet_1")];
     JObject [("text", JString "second");
              ("schedule_time", JString "2024-06-01T09:30:00Z");
              ("id", JString "tweet_2")];
     JObject [("text", JString "third");
              ("schedule_time", JString "2024-06-01T10:00:00Z");
              ("id", JString "tweet_3")]].

Definition isSecond (req : Request) : bool :=
  match reqBody req with
  | Json (JObject (("text", JString "second") :: _)) => true
  | _ => false
  end.

Definition flakyWorld : World :=
  mkWorld 0
    (fun i => Time.mkTime 2024 6 1 10 0 (Z.of_nat i) 0 0)
    (fun _ n => Ok (string_of_list_ascii (replicate n "*"%char)))
    (fun _ req => if isSecond req then Err netError else Ok okReply)
    (fun path => Err (ErrNotExist path))
    (fun _ _ => "application/octet-stream")
    (Stored (Json threeTweetsDocument))
    false.

(** A document that is laid out by hand: a key in upper case, a field that
    the program does not know, a [null], and an element that is [null]. *)
Definition handWrittenDocument : json :=
  JArray
    [JObject [("Text", JString "hello"); ("priority", JNumber "1");
              ("IMAGE", JString "cat.png");
              ("schedule_time", JString "2024-12-31T23:59:59.5+05:30");
              ("id", JString "tweet_7"); ("text", JNull)];
     JNull].

(** A world whose clock stands still at [noon], with no schedule yet. *)
Definition frozenWorld : World :=
  mkWorld 0 (fun _ => noon)
    (fun _ n => Ok (string_of_list_ascii (replicate n "*"%char)))
    (fun _ _ => Ok okReply)
    (fun path => Err (ErrNotExist path))
    (fun _ _ => "application/octet-stream")
    Missing
    false.

(** A world whose schedule document is not a JSON text. *)
Definition corruptWorld : World :=
  mkWorld 0
    (fun i => Time.mkTime 2024 6 1 10 0 (Z.of_nat i) 0 0)
    (fun _ n => Ok (string_of_list_ascii (replicate n "*"%char)))
    (fun _ _ => Ok okReply)
    (fun path => Err (ErrNotExist path))
    (fun _ _ => "application/octet-stream")
    (Stored (Raw "[{"))
    false.

(** The posts that cancelling [tweetID] keeps. *)
Definition keeps (tweetID : string) (t : scheduledTweet) : bool :=
  negb (String.eqb (ID t) tweetID).

(** The bytes that [percentEncode] leaves as they are, and how many bytes of
    a text are not of that kind. *)
Definition unreserved (c : ascii) : bool := isAlnum c || oneOf c "-_.~".

Fixpoint countEscaped (s : string) : nat :=
  match s with
  | EmptyString => O
  | String c r => ((if unreserved c then 0 else 1) + countEscaped r)%nat
  end.

Fixpoint allBytes (p : ascii -> bool) (s : string) : bool :=
  match s with
  | EmptyString => true
  | String c r => p c && allBytes p r
  end.

(** The digits that [hex.EncodeToString] writes. *)
Definition isLowerHex (c : ascii) : bool := isDigit c || between "a" "f" c.

(** Four digits at the head of a text: the text starts with a year. *)
Definition startsWithYear (s : string) : bool :=
  match Time.takeDigits 4 0 s with Some _ => true | None => false end.

(** The error of [parseScheduleTime]. *)
Definition invalidTimeFormat : error :=
  errorString "invalid time format. Use: 'YYYY-MM-DD HH:MM', 'MM-DD HH:MM', or 'HH:MM'".

(** The number of colons of a text. *)
Definition colons (s : string) : nat := Strings.countByte s ":".

(** The pieces of [civilFromDays] and [daysFromCivil], for the years of one
    era of 400 years that start in March: the year that a day of the era
    lies in, the day of the era at which a year starts, and the last day of
    a year. *)
Definition yearOfEra (doe : Z) : Z :=
  (doe - doe / 1460 + doe / 36524 - doe / 146096) / 365.

Definition yearStart (yoe : Z) : Z := yoe * 365 + yoe / 4 - yoe / 100.

Definition yearEnd (yoe : Z) : Z :=
  if yoe =? 399 then 146096 else yearStart (yoe + 1) - 1.

(** The month of the civil calendar that has the number [mp] when the year
    starts in March. *)
Definition civilMonth (mp : Z) : Z := if mp <? 10 then mp + 3 else mp - 9.

(** The first and the last day of a year of the era lie in that year, and
    the year has 366 days when February, its last month, belongs to a leap
    year, and 365 otherwise. *)
Definition yearChecked (yoe : Z) : bool :=
  (yearOfEra (yearStart yoe) =? yoe) && (yearOfEra (yearEnd yoe) =? yoe)
  && (364 <=? yearEnd yoe - yearStart yoe)
  && (0 <=? yearStart yoe) && (yearEnd yoe <=? 146096)
  && (if Time.isLeap (yoe + 1) then yearEnd yoe - yearStart yoe =? 365
      else yearEnd yoe - yearStart yoe =? 364).

Definition yearsChecked : bool := forallb yearChecked (seqZ 0 400).

(** A day of a month is read back from its day of the year, which is the
    366th only on February 29. *)
Definition dayChecked (mp d : Z) : bool :=
  let doy := (153 * mp + 2) / 5 + d - 1 in
  ((5 * doy + 2) / 153 =? mp)
  && (doy - (153 * mp + 2) / 5 + 1 =? d)
  && (doy <=? 365)
  && ((doy <=? 364) || ((mp =? 11) && (d =? 29))).

Definition monthChecked (mp : Z) : bool :=
  forallb (dayChecked mp) (seqZ 1 (Time.daysIn (civilMonth mp) 0)).

Definition monthsChecked : bool := forallb monthChecked (seqZ 0 12).

(** * Properties *)

Example percentEncode_hello : percentEncode "Hello World!" = "Hello%20World%21".
Proof. reflexivity. Qed.

Example percentEncode_marks : percentEncode "a-b_c.d~e+f/g" = "a-b_c.d~e%2Bf%2Fg".
Proof. reflexivity. Qed.

Example sha1_abc :
  Hex.EncodeToString (Sha1.Sum "abc") = "a9993e364706816aba3e25717850c26c9cd0d89d".
Proof. vm_compute. reflexivity. Qed.

Example hmac_rfc2202_2 :
  Hex.EncodeToString (Hmac.SumSha1 "Jefe" "what do ya want for nothing?")
  = "effcdf6ae5eb2fa2d27416d5f184df9c259a7c79".
Proof. vm_compute. reflexivity. Qed.

Example base64_rfc4648 :
  map Base64.EncodeToString ["f"; "fo"; "foo"; "foob"; "fooba"; "foobar"]
  = ["Zg=="; "Zm8="; "Zm9v"; "Zm9vYg=="; "Zm9vYmE="; "Zm9vYmFy"].
Proof. reflexivity. Qed.

Example percentEncode_twitter :
  percentEncode "Hello Ladies + Gentlemen, a signed OAuth request!"
  = "Hello%20Ladies%20%2B%20Gentlemen%2C%20a%20signed%20OAuth%20request%21".
Proof. reflexivity. Qed.

(** ** Percent-encoding *)

Lemma string_app_assoc (a b c : string) : (a +:+ b) +:+ c = a +:+ (b +:+ c).
Proof.
  induction a as [|x a IH]; [reflexivity|].
  change (String x ((a +:+ b) +:+ c) = String x (a +:+ (b +:+ c))).
  now rewrite IH.
Qed.

Lemma string_app_nil_r (a : string) : a +:+ EmptyString = a.
Proof.
  induction a as [|x a IH]; [reflexivity|].
  change (String x (a +:+ EmptyString) = String x a). now rewrite IH.
Qed.

Section PercentEncoding.

Import Url.

(** A byte that is a space in a query component is always counted. *)
Lemma space_is_escaped c mode :
  isSpace c && isQueryMode mode = true -> shouldEscape c mode = true.
Proof.
  unfold isSpace. intros H. apply andb_true_iff in H as [Hc Hm].
  apply Ascii.eqb_eq in Hc. subst c. destruct mode; try discriminate. reflexivity.
Qed.

Lemma escapeCounts_none s mode :
  escapeCounts s mode = (O, O) -> escapeWrite s mode = s.
Proof.
  induction s as [|c r IH]; simpl; [reflexivity|].
  destruct (escapeCounts r mode) as [sp hx].
  destruct (shouldEscape c mode) eqn:Hesc.
  - destruct (isSpace c && _); intros H; inversion H.
  - intros H. inversion H; subst.
    destruct (isSpace c && _) eqn:Hsp.
    + assert (shouldEscape c mode = true) as Hc.
      { apply space_is_escaped. destruct mode; exact Hsp. }
      congruence.
    + rewrite IH; reflexivity.
Qed.

(** The shortcut of [escape] for a string with nothing to escape does not
    show in its result. *)
Lemma escape_write s mode : escape s mode = escapeWrite s mode.
Proof.
  unfold escape. destruct (escapeCounts s mode) as [[|sp] [|hx]] eqn:H; try reflexivity.
  symmetry. apply escapeCounts_none. exact H.
Qed.

Lemma replaceFrom_plus_cons c r new :
  Strings.replaceFrom 0 (String c r) "+" new
  = (if Ascii.eqb c "+" then new else str1 c) +:+ Strings.replaceFrom 0 r "+" new.
Proof.
  cbn [Strings.replaceFrom Strings.HasPrefix String.prefix String.length Nat.sub].
  destruct (ascii_dec "+" c) as [<-|Hne].
  - destruct r; reflexivity.
  - rewrite (proj2 (Ascii.eqb_neq c "+")) by congruence. reflexivity.
Qed.

Lemma replaceFrom_plus_app a b new :
  Strings.replaceFrom 0 (a +:+ b) "+" new
  = Strings.replaceFrom 0 a "+" new +:+ Strings.replaceFrom 0 b "+" new.
Proof.
  induction a as [|c r IH]; [reflexivity|].
  change (String c r +:+ b) with (String c (r +:+ b)).
  rewrite !replaceFrom_plus_cons, IH.
  destruct (Ascii.eqb c "+"); simpl; [|reflexivity].
  now rewrite string_app_assoc.
Qed.

Lemma percentEncode_cons c s :
  percentEncode (String c s) = encodedByte c +:+ percentEncode s.
Proof.
  unfold percentEncode, encodedByte, QueryEscape, Strings.ReplaceAll.
  rewrite !escape_write.
  change (String c s) with (str1 c +:+ s).
  assert (forall a b, escapeWrite (a +:+ b) encodeQueryComponent
                      = escapeWrite a encodeQueryComponent
                        +:+ escapeWrite b encodeQueryComponent) as Happ.
  { induction a as [|d r IH]; intros b; [reflexivity|]. simpl.
    rewrite IH. destruct (isSpace d && true); [reflexivity|].
    destruct (shouldEscape d encodeQueryComponent); reflexivity. }
  rewrite Happ, replaceFrom_plus_app. reflexivity.
Qed.

Lemma encodedByte_cases c :
  encodedByte c =
    if isAlnum c || oneOf c "-_.~" then str1 c
    else if Ascii.eqb c " " then "%20"
    else String "%" (String (index_byte "0123456789ABCDEF" (byte_val c / 16))
                    (String (index_byte "0123456789ABCDEF" (byte_val c mod 16))
                            EmptyString)).
Proof. destruct c as [[] [] [] [] [] [] [] []]; reflexivity. Qed.

Lemma encodedByte_no_plus c : ~ In "+"%char (list_ascii_of_string (encodedByte c)).
Proof.
  destruct c as [[] [] [] [] [] [] [] []]; vm_compute;
    intros H; repeat (destruct H as [H|H]; [discriminate H|]); exact H.
Qed.

Lemma list_ascii_of_string_app a b :
  list_ascii_of_string (a +:+ b) = list_ascii_of_string a ++ list_ascii_of_string b.
Proof. induction a as [|c r IH]; simpl; [reflexivity|]. now rewrite IH. Qed.

End PercentEncoding.

(** C2.  [percentEncode] works byte by byte: an ASCII letter or digit and
    each of [-], [_], [.], [~] is kept; a space becomes [%20]; every other
    byte becomes [%XX], its value in upper-case hexadecimal; no [+] is ever
    written; and ["Hello World!"] becomes ["Hello%20World%21"]. *)
Theorem percentEncode_spec :
  percentEncode EmptyString = EmptyString
  /\ (forall c s,
        percentEncode (String c s) =
          (if isAlnum c || oneOf c "-_.~" then str1 c
           else if Ascii.eqb c " " then "%20"
           else String "%"
                  (String (index_byte "0123456789ABCDEF" (byte_val c / 16))
                     (String (index_byte "0123456789ABCDEF" (byte_val c mod 16))
                        EmptyString)))
          +:+ percentEncode s)
  /\ (forall s, ~ In "+"%char (list_ascii_of_string (percentEncode s)))
  /\ percentEncode "Hello World!" = "Hello%20World%21".
Proof.
  split; [reflexivity|]. split; [|split; [|reflexivity]].
  - intros c s. rewrite percentEncode_cons, encodedByte_cases. reflexivity.
  - induction s as [|c r IH]; [intros []|].
    rewrite percentEncode_cons, list_ascii_of_string_app, in_app_iff.
    intros [H|H]; [exact (encodedByte_no_plus c H)|exact (IH H)].
Qed.

(** ** The signature *)

Lemma header_pairs (v1 v2 v3 v4 v5 v6 v7 : string) :
  let m : gmap string string :=
    <["oauth_signature" := v3]>
      (<["oauth_consumer_key" := v1]> (<["oauth_nonce" := v2]>
      (<["oauth_signature_method" := v4]> (<["oauth_timestamp" := v5]>
      (<["oauth_token" := v6]> (<["oauth_version" := v7]> ∅)))))) in
  map (fun k => (k, default EmptyString (m !! k))) (Sort.Strings (mapKeys m))
  = [("oauth_consumer_key", v1); ("oauth_nonce", v2); ("oauth_signature", v3);
     ("oauth_signature_method", v4); ("oauth_timestamp", v5);
     ("oauth_token", v6); ("oauth_version", v7)].
Proof. vm_compute. reflexivity. Qed.

Lemma map_headerValue (m : gmap string string) (keys : list string) :
  map (fun k => headerValue k (default EmptyString (m !! k))) keys
  = map (fun kv => headerValue kv.1 kv.2)
        (map (fun k => (k, default EmptyString (m !! k))) keys).
Proof. rewrite map_map. reflexivity. Qed.

(** The header once the nonce and the timestamp are known and the URL has
    been normalised. *)
Lemma buildOAuth1HeaderWith_spec nonce timestamp method rawURL params cfg
    baseURL queryParams :
  normalizeURL rawURL = Ok (baseURL, queryParams) ->
  buildOAuth1HeaderWith nonce timestamp method rawURL params cfg
  = Ok ("OAuth "
        +:+ Strings.Join
              [headerValue "oauth_consumer_key" (Config.APIKey cfg);
               headerValue "oauth_nonce" nonce;
               headerValue "oauth_signature"
                 (Base64.EncodeToString
                    (Hmac.SumSha1
                       (percentEncode (Config.APISecret cfg) +:+ "&"
                        +:+ percentEncode (Config.AccessSecret cfg))
                       (Strings.ToUpper method +:+ "&" +:+ percentEncode baseURL
                        +:+ "&"
                        +:+ percentEncode
                              (encodeValues
                                 (signingValuesOf params
                                    (oauthParamsOf cfg nonce timestamp)
                                    queryParams)))));
               headerValue "oauth_signature_method" "HMAC-SHA1";
               headerValue "oauth_timestamp" timestamp;
               headerValue "oauth_token" (Config.AccessToken cfg);
               headerValue "oauth_version" "1.0"]
              ", ").
Proof.
  intros Hurl. unfold buildOAuth1HeaderWith. rewrite Hurl.
  cbn [mbind result_bind].
  rewrite map_headerValue. unfold oauthParamsOf at 2 3.
  rewrite header_pairs. reflexivity.
Qed.

(** C3.  When the random source gives the bytes of the nonce and the URL
    normalises to [baseURL] with the query [queryParams], the header carries,
    as [oauth_signature], the Base64 text of the HMAC-SHA1 of the base string
    under the signing key: the base string is the method in upper case, [&],
    the percent-encoded base URL, [&] and the percent-encoded parameter
    string; the key is the percent-encoded consumer secret, [&] and the
    percent-encoded access token secret. *)
Theorem signature_spec (w : World) (method rawURL : string)
    (params : gmap string string) (cfg : Config.Config)
    (buf baseURL : string) (queryParams : Url.Values) :
  entropy w (steps w) 16%nat = Ok buf ->
  normalizeURL rawURL = Ok (baseURL, queryParams) ->
  let nonce := Hex.EncodeToString buf in
  let timestamp := pretty (Time.Unix (clock w (S (steps w)))) in
  let parameterString :=
    encodeValues (signingValuesOf params (oauthParamsOf cfg nonce timestamp)
                                  queryParams) in
  let baseString :=
    Strings.ToUpper method +:+ "&" +:+ percentEncode baseURL +:+ "&"
    +:+ percentEncode parameterString in
  let signingKey :=
    percentEncode (Config.APISecret cfg) +:+ "&"
    +:+ percentEncode (Config.AccessSecret cfg) in
  let signature := Base64.EncodeToString (Hmac.SumSha1 signingKey baseString) in
  (buildOAuth1Header method rawURL params cfg w).1
  = Ok ("OAuth "
        +:+ Strings.Join
              [headerValue "oauth_consumer_key" (Config.APIKey cfg);
               headerValue "oauth_nonce" nonce;
               headerValue "oauth_signature" signature;
               headerValue "oauth_signature_method" "HMAC-SHA1";
               headerValue "oauth_timestamp" timestamp;
               headerValue "oauth_token" (Config.AccessToken cfg);
               headerValue "oauth_version" "1.0"]
              ", ").
Proof.
  intros Hrand Hurl. cbv zeta.
  unfold buildOAuth1Header, generateNonce, randRead. rewrite Hrand.
  cbn [fst snd timeNow tick steps clock].
  apply buildOAuth1HeaderWith_spec. exact Hurl.
Qed.

Lemma signature_spec_witness :
  entropy quietWorld (steps quietWorld) 16%nat = Ok "****************"
  /\ normalizeURL "HTTPS://Api.Twitter.com/2/tweets?b=1&a=2#top"
     = Ok ("https://api.twitter.com/2/tweets", <["a" := ["2"]]> (<["b" := ["1"]]> ∅))
  /\ (buildOAuth1Header "post" "HTTPS://Api.Twitter.com/2/tweets?b=1&a=2#top"
                        {["status" := "Hello World!"]} someConfig quietWorld).1
     = Ok ("OAuth "
           +:+ Strings.Join
                 [headerValue "oauth_consumer_key" "key";
                  headerValue "oauth_nonce" "2a2a2a2a2a2a2a2a2a2a2a2a2a2a2a2a";
                  headerValue "oauth_signature" "OyBLrxEy/PsEmjGzV0S9qVL64E8=";
                  headerValue "oauth_signature_method" "HMAC-SHA1";
                  headerValue "oauth_timestamp" "1717236001";
                  headerValue "oauth_token" "token";
                  headerValue "oauth_version" "1.0"]
                 ", ").
Proof.
  assert (entropy quietWorld (steps quietWorld) 16%nat = Ok "****************")
    as H1 by reflexivity.
  assert (normalizeURL "HTTPS://Api.Twitter.com/2/tweets?b=1&a=2#top"
          = Ok ("https://api.twitter.com/2/tweets",
                <["a" := ["2"]]> (<["b" := ["1"]]> ∅)))
    as H2 by (vm_compute; reflexivity).
  split; [exact H1|]. split; [exact H2|].
  pose proof (signature_spec quietWorld "post"
                "HTTPS://Api.Twitter.com/2/tweets?b=1&a=2#top"
                {["status" := "Hello World!"]} someConfig _ _ _ H1 H2) as H.
  vm_compute in H. vm_compute. exact H.
Defined.

(** The example of the documentation of the API ("Creating a signature"). *)
Example signature_documented :
  buildOAuth1HeaderWith "kYjzVBB8Y0ZFabxSWbWovY3uYSQ2pTgmZeNu2VS4cg" "1318622958"
    "post" "https://api.twitter.com/1.1/statuses/update.json?include_entities=true"
    {["status" := "Hello Ladies + Gentlemen, a signed OAuth request!"]}
    (Config.mkConfig "xvz1evFS4wEEPTGEFPHBog"
       "kAcSOqF21Fu85e7zjz7ZN2U4ZRhfV3WpwPAoE3Z7kBw"
       "370773112-GmHxMAgYyLbNEtIKZeRNFsMKPR9EyMZeS9weJAEb"
       "LswwdoUaIvS8ltyTt5jkRh4J50vUPVVHtR2YPi5kE")
  = Ok ("OAuth "
        +:+ Strings.Join
              [headerValue "oauth_consumer_key" "xvz1evFS4wEEPTGEFPHBog";
               headerValue "oauth_nonce" "kYjzVBB8Y0ZFabxSWbWovY3uYSQ2pTgmZeNu2VS4cg";
               headerValue "oauth_signature" "hCtSmYh+iHYCEqBWrE7C7hYmtUk=";
               headerValue "oauth_signature_method" "HMAC-SHA1";
               headerValue "oauth_timestamp" "1318622958";
               headerValue "oauth_token"
                 "370773112-GmHxMAgYyLbNEtIKZeRNFsMKPR9EyMZeS9weJAEb";
               headerValue "oauth_version" "1.0"]
              ", ").
Proof. vm_compute. reflexivity. Qed.

(** ** When signing fails *)

Lemma buildOAuth1HeaderWith_result nonce timestamp method rawURL params cfg :
  match Url.Parse rawURL with
  | Err err =>
      buildOAuth1HeaderWith nonce timestamp method rawURL params cfg
      = Err (wrapError "parsing URL" err)
  | Ok _ =>
      exists header,
        buildOAuth1HeaderWith nonce timestamp method rawURL params cfg = Ok header
  end.
Proof.
  unfold buildOAuth1HeaderWith, normalizeURL.
  destruct (Url.Parse rawURL) as [parsed|err]; [|reflexivity].
  cbn [mbind result_bind]. eexists. reflexivity.
Qed.

(** The three ways in which [buildOAuth1Header] ends. *)
Lemma buildOAuth1Header_result method rawURL params cfg w :
  match entropy w (steps w) 16%nat, Url.Parse rawURL with
  | Err err, _ =>
      (buildOAuth1Header method rawURL params cfg w).1
      = Err (wrapError "generating nonce" err)
  | Ok _, Err err =>
      (buildOAuth1Header method rawURL params cfg w).1
      = Err (wrapError "parsing URL" err)
  | Ok _, Ok _ =>
      exists header, (buildOAuth1Header method rawURL params cfg w).1 = Ok header
  end.
Proof.
  unfold buildOAuth1Header, generateNonce, randRead.
  destruct (entropy w (steps w) 16%nat) as [buf|err]; [|reflexivity].
  cbn [fst snd timeNow].
  exact (buildOAuth1HeaderWith_result _ _ method rawURL params cfg).
Qed.

(** C4, as the program has it.  Signing fails exactly when the random source
    fails or the URL does not parse; the method, the body parameters and the
    credentials never make it fail. *)
Theorem sign_fails_iff (method rawURL : string) (params : gmap string string)
    (cfg : Config.Config) (w : World) :
  isErr (buildOAuth1Header method rawURL params cfg w).1 = true
  <-> isErr (entropy w (steps w) 16%nat) = true \/ isErr (Url.Parse rawURL) = true.
Proof.
  pose proof (buildOAuth1Header_result method rawURL params cfg w) as H.
  destruct (entropy w (steps w) 16%nat) as [buf|e1];
    destruct (Url.Parse rawURL) as [parsed|e2].
  - destruct H as [header ->]. cbn [isErr]. intuition congruence.
  - rewrite H. cbn [isErr]. intuition congruence.
  - rewrite H. cbn [isErr]. intuition congruence.
  - rewrite H. cbn [isErr]. intuition congruence.
Qed.

(** C4, as it is written, fails: with a working random source, a URL that
    does not parse makes signing fail. *)
Lemma sign_fails_on_unparsable_url :
  isErr (entropy quietWorld (steps quietWorld) 16%nat) = false
  /\ (buildOAuth1Header "POST" ":" ∅ someConfig quietWorld).1
     = Err (wrapError "parsing URL"
              (urlError "parse" ":" (errorString "missing protocol scheme"))).
Proof. split; vm_compute; reflexivity. Qed.

(** ** The header of a tweet *)

Lemma tweetEndpoint_parses : exists u, Url.Parse tweetEndpoint = Ok u.
Proof. eexists. vm_compute. reflexivity. Qed.

Lemma tweetRequest_authorization cfg text mediaIDs w :
  authorizationOf (tweetRequest cfg text mediaIDs w)
  = buildOAuth1Header "POST" tweetEndpoint ∅ cfg w.
Proof.
  unfold tweetRequest, newRequest.
  destruct tweetEndpoint_parses as [u ->].
  destruct (buildOAuth1Header "POST" tweetEndpoint ∅ cfg w) as [[header|err] w1];
    reflexivity.
Qed.

(** With no body parameter and no query, the values that are signed are the
    six protocol parameters, one value each. *)
Lemma tweet_signing_values (v1 v2 v3 v4 : string) :
  let cfg := Config.mkConfig v1 EmptyString v2 EmptyString in
  normalizeURL tweetEndpoint = Ok ("https://api.twitter.com/2/tweets", ∅)
  /\ signingValuesOf ∅ (oauthParamsOf cfg v3 v4) ∅
     = (fun v => [v]) <$> oauthParamsOf cfg v3 v4.
Proof. split; vm_compute; reflexivity. Qed.

(** C10.  The [Authorization] header of a tweet is the header computed for
    a [POST] to the tweet endpoint with no body parameter: in the same world
    (the same nonce and timestamp) and with the same credentials, two tweets
    that differ in their text or media IDs get the same header, and leave the
    world in the same state. *)
Theorem tweet_header_ignores_body (cfg : Config.Config) (w : World)
    (text1 text2 : string) (mediaIDs1 mediaIDs2 : slice string) :
  authorizationOf (tweetRequest cfg text1 mediaIDs1 w)
  = authorizationOf (tweetRequest cfg text2 mediaIDs2 w)
  /\ authorizationOf (tweetRequest cfg text1 mediaIDs1 w)
     = buildOAuth1Header "POST" tweetEndpoint ∅ cfg w.
Proof. rewrite !tweetRequest_authorization. split; reflexivity. Qed.

Example tweet_header_example :
  (authorizationOf (tweetRequest someConfig "first" nilSlice quietWorld)).1
  = (authorizationOf (tweetRequest someConfig "second" (Slice ["1"; "2"]) quietWorld)).1
  /\ (tweetRequest someConfig "first" nilSlice quietWorld).1
     <> (tweetRequest someConfig "second" (Slice ["1"; "2"]) quietWorld).1.
Proof.
  split; [vm_compute; reflexivity|].
  vm_compute. intros H. discriminate H.
Qed.

(** ** The parameter string *)

(** C1, at an input where the program and the specification part.  The
    program sorts the keys as they are and encodes them afterwards: the key
    [aa] comes before [a|], which is written [a%7C].  Sorted by encoded key,
    [a%7C] comes first. *)
Theorem parameter_string_sorted_before_encoding :
  encodeValues (signingValuesOf pipeParams (oauthParamsOf someConfig "n" "1") ∅)
  = "aa=2&a%7C=1&oauth_consumer_key=key&oauth_nonce=n"
    +:+ "&oauth_signature_method=HMAC-SHA1&oauth_timestamp=1"
    +:+ "&oauth_token=token&oauth_version=1.0"
  /\ specParameterString pipeParams (oauthParamsOf someConfig "n" "1") ∅
     = "a%7C=1&aa=2&oauth_consumer_key=key&oauth_nonce=n"
       +:+ "&oauth_signature_method=HMAC-SHA1&oauth_timestamp=1"
       +:+ "&oauth_token=token&oauth_version=1.0".
Proof. split; vm_compute; reflexivity. Qed.

(** On a request with a query and a body parameter whose keys and values
    keep their order when encoded, both give the same string. *)
Example parameter_string_agrees :
  let query : Url.Values := <["a" := ["2"; "1"]]> (<["b" := ["1"]]> ∅) in
  let params : gmap string string := {["status" := "Hello World!"]} in
  encodeValues (signingValuesOf params (oauthParamsOf someConfig "n" "1") query)
  = specParameterString params (oauthParamsOf someConfig "n" "1") query.
Proof. vm_compute. reflexivity. Qed.

(** ** The parameter string in general *)

Section ParameterString.

(** *** The order of the entries *)

Lemma leb_le a b : String.leb a b = true <-> String.le a b.
Proof. unfold String.le. split; [apply Is_true_true_2|apply Is_true_true_1]. Qed.

Lemma pair_le_same k v1 v2 : pair_le (k, v1) (k, v2) <-> String.le v1 v2.
Proof.
  unfold pair_le, pairLeb. cbn [fst snd]. rewrite String.eqb_refl. apply leb_le.
Qed.

Lemma pair_le_other k1 v1 k2 v2 :
  k1 <> k2 -> pair_le (k1, v1) (k2, v2) <-> String.le k1 k2.
Proof.
  intros Hne. unfold pair_le, pairLeb. cbn [fst snd].
  rewrite (proj2 (String.eqb_neq k1 k2) Hne). apply leb_le.
Qed.

#[local] Instance pair_le_total : Total pair_le.
Proof.
  intros [k1 v1] [k2 v2]. destruct (decide (k1 = k2)) as [->|Hne].
  - rewrite !pair_le_same. apply total, _.
  - rewrite !pair_le_other by congruence. apply total, _.
Qed.

#[local] Instance pair_le_trans : Transitive pair_le.
Proof.
  intros [k1 v1] [k2 v2] [k3 v3].
  destruct (decide (k1 = k2)) as [->|H12]; destruct (decide (k2 = k3)) as [->|H23].
  - rewrite !pair_le_same. apply transitivity.
  - rewrite pair_le_same, !pair_le_other by congruence. auto.
  - rewrite pair_le_same, !pair_le_other by congruence. auto.
  - rewrite !(pair_le_other k1 _ k2), !(pair_le_other k2 _ k3) by congruence.
    intros Ha Hb. assert (String.le k1 k3) as Hc by (etransitivity; eassumption).
    destruct (decide (k1 = k3)) as [->|H13].
    + exfalso. apply H12. apply (anti_symm String.le); assumption.
    + now apply pair_le_other.
Qed.

#[local] Instance pair_le_antisymm : AntiSymm (=) pair_le.
Proof.
  intros [k1 v1] [k2 v2]. destruct (decide (k1 = k2)) as [->|Hne].
  - rewrite !pair_le_same. intros Ha Hb. f_equal.
    apply (anti_symm String.le); assumption.
  - rewrite !pair_le_other by congruence. intros Ha Hb.
    exfalso. apply Hne. apply (anti_symm String.le); assumption.
Qed.

(** *** The entries of the values that are signed *)

Lemma flat_map_ext_perm {A B : Type} (f g : A -> list B) l :
  (forall x, x ∈ l -> f x ≡ₚ g x) -> flat_map f l ≡ₚ flat_map g l.
Proof.
  induction l as [|x l IH]; intros H; [reflexivity|]. cbn [flat_map].
  rewrite (H x) by left. rewrite IH; [reflexivity|].
  intros y Hy. apply H. now right.
Qed.

Lemma flatten_perm (m1 m2 : list (string * list string)) :
  m1 ≡ₚ m2 ->
  flat_map (fun kvs => map (pair kvs.1) kvs.2) m1
  ≡ₚ flat_map (fun kvs => map (pair kvs.1) kvs.2) m2.
Proof. apply Permutation_flat_map. Qed.

Lemma flatten_empty : flatten ∅ = [].
Proof. unfold flatten. now rewrite map_to_list_empty. Qed.

Lemma flatten_Add (m : Url.Values) k v : flatten (Url.Add m k v) ≡ₚ flatten m ++ [(k, v)].
Proof.
  unfold flatten, Url.Add. destruct (m !! k) as [vs|] eqn:Hk; cbn [default].
  - rewrite <- insert_delete_eq.
    rewrite (flatten_perm _ _ (map_to_list_insert (delete k m) k (vs ++ [v])
                                 (lookup_delete_eq m k))).
    rewrite <- (flatten_perm _ _ (map_to_list_delete m k vs Hk)).
    cbn [flat_map fst snd]. rewrite map_app. cbn [map].
    rewrite <- !app_assoc. apply Permutation_app_head.
    apply Permutation_app_comm.
  - rewrite (flatten_perm _ _ (map_to_list_insert m k ([] ++ [v]) Hk)).
    cbn [flat_map fst snd map app]. apply Permutation_cons_append.
Qed.

Lemma flatten_foldr_Add (l : list (string * string)) (values : Url.Values) :
  flatten (foldr (uncurry (fun k v acc => Url.Add acc k v)) values l)
  ≡ₚ flatten values ++ l.
Proof.
  induction l as [|[k v] l IH]; cbn [foldr uncurry].
  - now rewrite app_nil_r.
  - rewrite flatten_Add, IH, <- app_assoc. apply Permutation_app_head.
    symmetry. apply Permutation_cons_append.
Qed.

Lemma flatten_addParams params values :
  flatten (addParams params values) ≡ₚ flatten values ++ map_to_list params.
Proof. unfold addParams. rewrite map_fold_foldr. apply flatten_foldr_Add. Qed.

Lemma flatten_fold_left_Add k vs : forall values : Url.Values,
  flatten (fold_left (fun acc v => Url.Add acc k v) vs values)
  ≡ₚ flatten values ++ map (pair k) vs.
Proof.
  induction vs as [|v vs IH]; intros values; cbn [fold_left map].
  - now rewrite app_nil_r.
  - rewrite IH, flatten_Add, <- app_assoc. reflexivity.
Qed.

Lemma flatten_addQuery (queryParams values : Url.Values) :
  flatten (addQuery queryParams values) ≡ₚ flatten values ++ flatten queryParams.
Proof.
  unfold addQuery. rewrite map_fold_foldr. unfold flatten at 3.
  induction (map_to_list queryParams) as [|[k vs] l IH]; cbn [foldr uncurry flat_map].
  - now rewrite app_nil_r.
  - rewrite flatten_fold_left_Add, IH, <- app_assoc. apply Permutation_app_head.
    apply Permutation_app_comm.
Qed.

(** The values that are signed are the union of the three sources. *)
Lemma flatten_signingValues params oauthParams queryParams :
  flatten (signingValuesOf params oauthParams queryParams)
  ≡ₚ entriesOf params oauthParams queryParams.
Proof.
  unfold signingValuesOf, entriesOf.
  rewrite flatten_addQuery, !flatten_addParams, flatten_empty. cbn [app].
  now rewrite <- app_assoc.
Qed.

(** *** What [encodeValues] goes through *)

Lemma sortedEntries_perm (values : Url.Values) : sortedEntries values ≡ₚ flatten values.
Proof.
  unfold sortedEntries, flatten, Sort.Strings, mapKeys.
  rewrite (Permutation_flat_map _ (merge_sort_Permutation String.le _)).
  rewrite flat_map_concat_map, map_map, <- flat_map_concat_map.
  apply flat_map_ext_perm. intros [k vs] Hin.
  apply elem_of_map_to_list in Hin. cbn [fst snd]. rewrite Hin. cbn [default].
  apply Permutation_map, merge_sort_Permutation.
Qed.

Lemma sorted_group k (vs : list string) :
  StronglySorted pair_le (map (pair k) (Sort.Strings vs)).
Proof.
  unfold Sort.Strings.
  pose proof (StronglySorted_merge_sort String.le vs) as H.
  induction H as [|v l _ IH Hall]; cbn [map]; constructor; [exact IH|].
  apply Forall_forall. intros x Hx.
  apply list_elem_of_In, in_map_iff in Hx as (v' & <- & Hv').
  apply pair_le_same. rewrite Forall_forall in Hall. apply Hall.
  now apply list_elem_of_In.
Qed.

Lemma sorted_groups (g : string -> list string) (keys : list string) :
  StronglySorted String.le keys -> NoDup keys ->
  StronglySorted pair_le (flat_map (fun k => map (pair k) (Sort.Strings (g k))) keys).
Proof.
  induction 1 as [|k keys _ IH Hall]; intros Hnd; [constructor|].
  cbn [flat_map]. apply NoDup_cons in Hnd as [Hk Hnd].
  apply StronglySorted_app_2; [|apply sorted_group|exact (IH Hnd)].
  intros [k1 v1] [k2 v2] H1 H2.
  apply list_elem_of_In, in_map_iff in H1 as (v & [= <- <-] & _).
  apply list_elem_of_In, in_flat_map in H2 as (k' & Hk' & H2).
  apply in_map_iff in H2 as (v' & [= <- <-] & _).
  assert (k <> k') as Hne.
  { intros ->. apply Hk. now apply list_elem_of_In. }
  apply pair_le_other; [exact Hne|].
  rewrite Forall_forall in Hall. apply Hall. now apply list_elem_of_In.
Qed.

Lemma sortedEntries_sorted (values : Url.Values) :
  StronglySorted pair_le (sortedEntries values).
Proof.
  unfold sortedEntries. apply sorted_groups.
  - apply StronglySorted_merge_sort; apply _.
  - unfold Sort.Strings, mapKeys. rewrite merge_sort_Permutation.
    apply NoDup_fst_map_to_list.
Qed.

(** The entries in the order in which [encodeValues] writes them: the
    entries of the union, sorted by key and then by value, as they are. *)
Lemma sortedEntries_signingValues params oauthParams queryParams :
  sortedEntries (signingValuesOf params oauthParams queryParams)
  = merge_sort pair_le (entriesOf params oauthParams queryParams).
Proof.
  apply (StronglySorted_unique pair_le).
  - apply sortedEntries_sorted.
  - apply StronglySorted_merge_sort; apply _.
  - rewrite sortedEntries_perm, flatten_signingValues, merge_sort_Permutation.
    reflexivity.
Qed.

(** *** The loop that writes *)

Lemma write_group k vs : forall st,
  fold_left (writePair k) vs st = fold_left writeEntry (map (pair k) vs) st.
Proof. induction vs as [|v vs IH]; intros st; [reflexivity|]. cbn. apply IH. Qed.

Lemma write_groups (g : string -> list string) keys : forall st,
  fold_left (fun st k => fold_left (writePair k) (g k) st) keys st
  = fold_left writeEntry (flat_map (fun k => map (pair k) (g k)) keys) st.
Proof.
  induction keys as [|k keys IH]; intros st; [reflexivity|].
  cbn [fold_left flat_map]. now rewrite fold_left_app, IH, write_group.
Qed.

Lemma writeEntry_followers l : forall builder,
  fold_left writeEntry l (false, builder) = (false, builder +:+ followers l).
Proof.
  induction l as [|kv l IH]; intros builder; cbn [fold_left followers].
  - now rewrite string_app_nil_r.
  - unfold writeEntry at 2, writePair. rewrite IH. f_equal.
    unfold written, joinEntry, encodeEntry. cbn [fst snd].
    now rewrite !string_app_assoc.
Qed.

Lemma Join_followers x l :
  Strings.Join (written x :: map written l) "&" = written x +:+ followers l.
Proof.
  revert x. induction l as [|y l IH]; intros x; cbn [map followers].
  - cbn [Strings.Join]. now rewrite string_app_nil_r.
  - change (Strings.Join (written x :: written y :: map written l) "&")
      with (written x +:+ "&" +:+ Strings.Join (written y :: map written l) "&").
    now rewrite IH.
Qed.

Lemma write_loop l :
  snd (fold_left writeEntry l (true, EmptyString)) = Strings.Join (map written l) "&".
Proof.
  destruct l as [|kv l]; [reflexivity|].
  cbn [fold_left map]. unfold writeEntry at 2, writePair.
  rewrite writeEntry_followers, Join_followers. cbn [snd].
  unfold written, joinEntry, encodeEntry. cbn [fst snd].
  change (EmptyString +:+ ?x) with x. now rewrite !string_app_assoc.
Qed.

Lemma encodeValues_sortedEntries (values : Url.Values) :
  encodeValues values = Strings.Join (map written (sortedEntries values)) "&".
Proof.
  unfold encodeValues, sortedEntries.
  destruct (Nat.eqb (size values) 0) eqn:Hsize.
  - apply Nat.eqb_eq, map_size_empty_iff in Hsize. subst values.
    unfold mapKeys. rewrite map_to_list_empty. reflexivity.
  - rewrite (write_groups (fun k => Sort.Strings (default [] (values !! k)))).
    apply write_loop.
Qed.

(** What the program computes: the entries of the union of the three
    sources are sorted by key and then by value as they are, then each key
    and value is percent-encoded, and the pairs are joined. *)
Theorem encodeValues_sorts_then_encodes params oauthParams queryParams :
  encodeValues (signingValuesOf params oauthParams queryParams)
  = Strings.Join
      (map joinEntry
           (map encodeEntry
                (merge_sort pair_le (entriesOf params oauthParams queryParams))))
      "&".
Proof.
  rewrite encodeValues_sortedEntries, sortedEntries_signingValues, map_map.
  reflexivity.
Qed.

(** *** Where the order of sorting and encoding does not matter *)

Lemma sorted_map (f : string * string -> string * string) l :
  (forall a b, a ∈ l -> b ∈ l -> pair_le a b -> pair_le (f a) (f b)) ->
  StronglySorted pair_le l -> StronglySorted pair_le (map f l).
Proof.
  intros Hmono Hs. induction Hs as [|x l _ IH Hall]; cbn [map]; constructor.
  - apply IH. intros a b Ha Hb. apply Hmono; now right.
  - apply Forall_forall. intros y Hy.
    apply list_elem_of_In, in_map_iff in Hy as (b & <- & Hb).
    apply list_elem_of_In in Hb.
    apply Hmono; [left|now right|]. rewrite Forall_forall in Hall. now apply Hall.
Qed.

(** When percent-encoding keeps the order of the entries, the program
    computes the parameter string of the specification. *)
Theorem encodeValues_as_specified params oauthParams queryParams :
  (forall a b,
      a ∈ entriesOf params oauthParams queryParams ->
      b ∈ entriesOf params oauthParams queryParams ->
      pair_le a b -> pair_le (encodeEntry a) (encodeEntry b)) ->
  encodeValues (signingValuesOf params oauthParams queryParams)
  = specParameterString params oauthParams queryParams.
Proof.
  intros Hmono. rewrite encodeValues_sorts_then_encodes. unfold specParameterString.
  f_equal. f_equal. apply (StronglySorted_unique pair_le).
  - apply sorted_map; [|apply StronglySorted_merge_sort; apply _].
    intros a b Ha Hb. rewrite merge_sort_Permutation in Ha, Hb. now apply Hmono.
  - apply StronglySorted_merge_sort; apply _.
  - etransitivity; [apply Permutation_map, merge_sort_Permutation|].
    symmetry. apply merge_sort_Permutation.
Qed.

(** Keys that are all different and that encoding leaves as they are keep
    their order. *)
Lemma distinct_plain_keys_keep_order (entries : list (string * string)) :
  NoDup entries.*1 ->
  (forall kv, kv ∈ entries -> percentEncode kv.1 = kv.1) ->
  forall a b, a ∈ entries -> b ∈ entries ->
    pair_le a b -> pair_le (encodeEntry a) (encodeEntry b).
Proof.
  intros Hnd Hplain [k1 v1] [k2 v2] Ha Hb Hle.
  pose proof (Hplain _ Ha) as H1. pose proof (Hplain _ Hb) as H2.
  unfold encodeEntry. cbn [fst snd] in *. rewrite H1, H2.
  destruct (decide (k1 = k2)) as [->|Hne].
  - assert (v1 = v2) as ->.
    { apply list_elem_of_lookup in Ha as [i Hi], Hb as [j Hj].
      assert (i = j) as ->.
      { apply (NoDup_lookup _ i j k2 Hnd); rewrite list_lookup_fmap.
        - now rewrite Hi.
        - now rewrite Hj. }
      congruence. }
    apply pair_le_same. reflexivity.
  - apply pair_le_other; [exact Hne|]. now apply pair_le_other in Hle.
Qed.

Lemma plain_keys_as_specified params oauthParams queryParams keys :
  (entriesOf params oauthParams queryParams).*1 = keys ->
  NoDup keys ->
  Forall (fun k => percentEncode k = k) keys ->
  encodeValues (signingValuesOf params oauthParams queryParams)
  = specParameterString params oauthParams queryParams.
Proof.
  intros <- Hnd Hplain.
  apply encodeValues_as_specified, distinct_plain_keys_keep_order; [exact Hnd|].
  intros kv Hkv. rewrite Forall_forall in Hplain. apply Hplain.
  apply list_elem_of_fmap. exists kv. split; [reflexivity|exact Hkv].
Qed.

(** The requests that the program signs itself, a tweet and a media upload,
    are of that kind: their parameter string is the one of the
    specification. *)
Corollary tweet_parameter_string cfg nonce timestamp :
  encodeValues (signingValuesOf ∅ (oauthParamsOf cfg nonce timestamp) ∅)
  = specParameterString ∅ (oauthParamsOf cfg nonce timestamp) ∅.
Proof.
  eapply plain_keys_as_specified.
  - vm_compute. reflexivity.
  - apply (bool_decide_unpack _). vm_compute. reflexivity.
  - repeat constructor.
Qed.

Corollary upload_parameter_string cfg nonce timestamp data (image : bool) :
  let params : gmap string string :=
    if image then <["media_category" := "tweet_image"]> {["media_data" := data]}
    else {["media_data" := data]} in
  encodeValues (signingValuesOf params (oauthParamsOf cfg nonce timestamp) ∅)
  = specParameterString params (oauthParamsOf cfg nonce timestamp) ∅.
Proof.
  destruct image; cbv zeta; eapply plain_keys_as_specified;
    first [ vm_compute; reflexivity
          | apply (bool_decide_unpack _); vm_compute; reflexivity
          | repeat constructor ].
Qed.

End ParameterString.

(** ** Times as texts *)

Section TimeText.
Import Time.

Lemma digitChar_isDigit d : 0 <= d <= 9 -> isDigit (digitChar d) = true.
Proof.
  intros H. assert (d = 0 \/ d = 1 \/ d = 2 \/ d = 3 \/ d = 4 \/ d = 5 \/ d = 6
                    \/ d = 7 \/ d = 8 \/ d = 9) as Hd by lia.
  repeat (destruct Hd as [->|Hd]; [reflexivity|]). subst. reflexivity.
Qed.

Lemma digitVal_digitChar d : 0 <= d <= 9 -> digitVal (digitChar d) = d.
Proof.
  intros H. assert (d = 0 \/ d = 1 \/ d = 2 \/ d = 3 \/ d = 4 \/ d = 5 \/ d = 6
                    \/ d = 7 \/ d = 8 \/ d = 9) as Hd by lia.
  repeat (destruct Hd as [->|Hd]; [reflexivity|]). subst. reflexivity.
Qed.

Lemma isDigit_digitVal c : isDigit c = true -> 0 <= digitVal c <= 9.
Proof.
  destruct c as [[] [] [] [] [] [] [] []]; vm_compute; intros H;
    first [discriminate H | split; intros H'; discriminate H'].
Qed.

Lemma fixedDigits_S w u :
  fixedDigits (S w) u
  = String (digitChar (u / 10 ^ Z.of_nat w mod 10)) (fixedDigits w u).
Proof. reflexivity. Qed.

Lemma takeDigits_fixed n : forall u acc rest,
  takeDigits n acc (fixedDigits n u +:+ rest)
  = Some (acc * 10 ^ Z.of_nat n + u mod 10 ^ Z.of_nat n, rest).
Proof.
  induction n as [|n IH]; intros u acc rest.
  - cbn [takeDigits fixedDigits]. change (EmptyString +:+ rest) with rest.
    f_equal. f_equal. change (10 ^ Z.of_nat 0) with 1. rewrite Z.mod_1_r. lia.
  - rewrite fixedDigits_S.
    change (String ?c ?s +:+ rest) with (String c (s +:+ rest)).
    cbn [takeDigits].
    assert (0 <= u / 10 ^ Z.of_nat n mod 10 <= 9) as Hd.
    { pose proof (Z.mod_pos_bound (u / 10 ^ Z.of_nat n) 10). lia. }
    rewrite digitChar_isDigit, digitVal_digitChar, IH by exact Hd.
    f_equal. f_equal.
    rewrite Nat2Z.inj_succ, Z.pow_succ_r by lia.
    assert (0 < 10 ^ Z.of_nat n) as Hp by (apply Z.pow_pos_nonneg; lia).
    rewrite (Z.mul_comm 10 (10 ^ Z.of_nat n)).
    rewrite (Z.rem_mul_r u (10 ^ Z.of_nat n) 10) by lia.
    ring.
Qed.

Lemma appendInt_fixed x width :
  0 <= x < 10 ^ Z.of_nat width -> appendInt x width = fixedDigits width x.
Proof.
  intros H. unfold appendInt.
  rewrite (proj2 (Z.ltb_ge x 0)) by lia.
  rewrite Z.abs_eq by lia.
  rewrite (proj2 (Z.ltb_lt x _)) by lia. reflexivity.
Qed.

Lemma parseUint_appendInt n lo hi x rest :
  0 <= x < 10 ^ Z.of_nat n -> lo <= x <= hi ->
  parseUint n lo hi (appendInt x n +:+ rest) = Some (x, rest).
Proof.
  intros Hx Hr. unfold parseUint.
  rewrite appendInt_fixed, takeDigits_fixed by exact Hx.
  rewrite Z.mod_small by lia.
  replace (0 * 10 ^ Z.of_nat n + x) with x by lia.
  rewrite (proj2 (Z.leb_le lo x)), (proj2 (Z.leb_le x hi)) by lia. reflexivity.
Qed.

Lemma expect_cons c r : expect c (String c r) = Some r.
Proof. unfold expect. now rewrite Ascii.eqb_refl. Qed.

Lemma parseUint_range n lo hi s x r :
  parseUint n lo hi s = Some (x, r) -> lo <= x <= hi.
Proof.
  unfold parseUint. destruct (takeDigits n 0 s) as [[y r']|]; [|discriminate].
  destruct ((lo <=? y) && (y <=? hi)) eqn:H; [|discriminate].
  intros [= <- <-]. apply andb_true_iff in H as [H1 H2]. lia.
Qed.

(** *** Fractions of a second *)

Lemma length_trimRightZeros s :
  (String.length (trimRightZeros s) <= String.length s)%nat.
Proof.
  induction s as [|c r IH]; [reflexivity|]. cbn [trimRightZeros String.length].
  destruct (trimRightZeros r) as [|d r'].
  - destruct (Ascii.eqb c "0"); cbn [String.length str1]; lia.
  - cbn [String.length] in *. lia.
Qed.

Lemma digitsValue_zero_tail c acc :
  Ascii.eqb c "0" = true -> acc * 10 + digitVal c = acc * 10.
Proof.
  intros H. apply Ascii.eqb_eq in H. subst c. change (digitVal "0") with 0. lia.
Qed.

Lemma digitsValue_trim s : forall acc,
  digitsValue acc s
  = digitsValue acc (trimRightZeros s)
    * 10 ^ (Z.of_nat (String.length s) - Z.of_nat (String.length (trimRightZeros s))).
Proof.
  induction s as [|c r IH]; intros acc.
  - cbn. lia.
  - pose proof (length_trimRightZeros r) as Hlen.
    cbn [digitsValue trimRightZeros]. rewrite IH.
    destruct (trimRightZeros r) as [|d r'] eqn:Htrim.
    + destruct (Ascii.eqb c "0") eqn:Hc.
      * rewrite (digitsValue_zero_tail c acc Hc).
        cbn [digitsValue String.length].
        rewrite !Z.sub_0_r, Nat2Z.inj_succ, Z.pow_succ_r by lia. ring.
      * cbn [digitsValue String.length str1].
        replace (Z.of_nat (S (String.length r)) - Z.of_nat 1)
          with (Z.of_nat (String.length r) - Z.of_nat 0) by lia.
        reflexivity.
    + cbn [digitsValue String.length]. f_equal. f_equal. lia.
Qed.

Lemma length_fixedDigits n u : String.length (fixedDigits n u) = n.
Proof. induction n as [|n IH]; cbn [fixedDigits String.length]; congruence. Qed.

Lemma digitsValue_app a : forall acc b,
  takeDigits (String.length a) acc (a +:+ b) = Some (digitsValue acc a, b)
  \/ takeDigits (String.length a) acc (a +:+ b) = None.
Proof.
  induction a as [|c r IH]; intros acc b; [left; reflexivity|].
  change (String c r +:+ b) with (String c (r +:+ b)).
  cbn [takeDigits String.length digitsValue].
  destruct (isDigit c); [apply IH|right; reflexivity].
Qed.

Lemma digitsValue_fixed n u :
  digitsValue 0 (fixedDigits n u) = u mod 10 ^ Z.of_nat n.
Proof.
  pose proof (takeDigits_fixed n u 0 EmptyString) as H.
  destruct (digitsValue_app (fixedDigits n u) 0 EmptyString) as [H'|H'];
    rewrite length_fixedDigits in H'; rewrite H' in H; [|discriminate].
  injection H as H. lia.
Qed.

Lemma allDigits_fixed n u : Url.allDigits (fixedDigits n u) = true.
Proof.
  induction n as [|n IH]; [reflexivity|]. rewrite fixedDigits_S.
  cbn [Url.allDigits]. rewrite IH, digitChar_isDigit; [reflexivity|].
  pose proof (Z.mod_pos_bound (u / 10 ^ Z.of_nat n) 10). lia.
Qed.

Lemma allDigits_trim s : Url.allDigits s = true -> Url.allDigits (trimRightZeros s) = true.
Proof.
  induction s as [|c r IH]; [reflexivity|]. cbn [Url.allDigits trimRightZeros].
  intros H. apply andb_true_iff in H as [Hc Hr]. specialize (IH Hr).
  destruct (trimRightZeros r) as [|d r'].
  - destruct (Ascii.eqb c "0"); [reflexivity|]. cbn [str1 Url.allDigits].
    now rewrite Hc.
  - cbn [Url.allDigits] in *. now rewrite Hc, IH.
Qed.

Lemma spanDigits_app ds rest :
  Url.allDigits ds = true -> noDigitAhead rest ->
  spanDigits (ds +:+ rest) = (ds, rest).
Proof.
  intros Hds Hrest. induction ds as [|c r IH].
  - change (EmptyString +:+ rest) with rest. destruct rest as [|d r]; [reflexivity|].
    cbn [spanDigits]. cbn in Hrest. now rewrite Hrest.
  - change (String c r +:+ rest) with (String c (r +:+ rest)).
    cbn [Url.allDigits] in Hds. apply andb_true_iff in Hds as [Hc Hr].
    cbn [spanDigits]. rewrite Hc, (IH Hr). reflexivity.
Qed.

Lemma take_short n s : (String.length s <= n)%nat -> Strings.take n s = s.
Proof.
  unfold Strings.take. revert n. induction s as [|c r IH]; intros n H.
  - destruct n; reflexivity.
  - destruct n as [|n]; cbn [String.length] in H; [lia|].
    cbn [String.substring]. rewrite IH by lia. reflexivity.
Qed.

Lemma nanos_roundtrip n :
  0 <= n <= 999999999 ->
  nanosOfDigits (trimRightZeros (fixedDigits 9 n)) = n.
Proof.
  intros Hn. unfold nanosOfDigits.
  pose proof (length_trimRightZeros (fixedDigits 9 n)) as Hlen.
  rewrite length_fixedDigits in Hlen.
  rewrite take_short by exact Hlen.
  pose proof (digitsValue_trim (fixedDigits 9 n) 0) as H.
  rewrite length_fixedDigits, digitsValue_fixed in H.
  rewrite Z.mod_small in H by (change (10 ^ Z.of_nat 9) with 1000000000; lia).
  symmetry. exact H.
Qed.

Lemma parseFraction_appendNano n rest :
  0 <= n <= 999999999 -> noDigitAhead rest ->
  match rest with String c _ => Ascii.eqb "." c = false | EmptyString => True end ->
  parseFraction (Ascii.eqb ".") (appendNano n +:+ rest) = (n, rest).
Proof.
  intros Hn Hrest Hdot. unfold appendNano.
  destruct (n =? 0) eqn:Hz.
  - apply Z.eqb_eq in Hz. subst n. change (EmptyString +:+ rest) with rest.
    unfold parseFraction. destruct rest as [|c [|d r]]; try reflexivity.
    now rewrite Hdot.
  - apply Z.eqb_neq in Hz.
    rewrite appendInt_fixed by (change (10 ^ Z.of_nat 9) with 1000000000; lia).
    pose proof (nanos_roundtrip n Hn) as Hround.
    pose proof (allDigits_trim _ (allDigits_fixed 9 n)) as Hall.
    destruct (trimRightZeros (fixedDigits 9 n)) as [|d ds] eqn:Htrim.
    { exfalso. apply Hz. rewrite <- Hround. reflexivity. }
    change (("." +:+ String d ds) +:+ rest) with (String "." (String d (ds +:+ rest))).
    unfold parseFraction. cbn [Ascii.eqb Bool.eqb andb].
    pose proof Hall as Hall'. cbn [Url.allDigits] in Hall'.
    apply andb_true_iff in Hall' as [Hd _]. rewrite Hd.
    change (String d (ds +:+ rest)) with (String d ds +:+ rest).
    rewrite (spanDigits_app _ _ Hall Hrest), Hround. reflexivity.
Qed.

(** *** The zone *)

Lemma parseZone_zoneText offset :
  offset mod 60 = 0 -> -86400 < offset < 86400 ->
  parseZone (zoneText offset) = Some offset.
Proof.
  intros Hmod Hrange. unfold zoneText.
  destruct (offset =? 0) eqn:Hz.
  { apply Z.eqb_eq in Hz. subst. reflexivity. }
  apply Z.eqb_neq in Hz.
  apply Z.mod_divide in Hmod; [|lia]. destruct Hmod as [q Hq].
  assert (Z.quot offset 60 = q) as -> by (subst offset; apply Z.quot_mul; lia).
  assert (0 <= Z.abs q / 60 <= 23) as Hh.
  { split; [apply Z.div_pos; lia|].
    assert (Z.abs q / 60 < 24) by (apply Z.div_lt_upper_bound; lia). lia. }
  assert (0 <= Z.abs q mod 60 <= 59) as Hm.
  { pose proof (Z.mod_pos_bound (Z.abs q) 60). lia. }
  assert (60 <> 0) as H60 by lia.
  pose proof (Z.div_mod (Z.abs q) 60 H60) as Hdm.
  assert (forall sign : ascii, Ascii.eqb sign "Z" = false ->
            parseZone (String sign (appendInt (Z.abs q / 60) 2 +:+ ":"
                                    +:+ appendInt (Z.abs q mod 60) 2))
            = if Ascii.eqb sign "-" then Some (- ((Z.abs q / 60 * 60 + Z.abs q mod 60) * 60))
              else if Ascii.eqb sign "+" then Some ((Z.abs q / 60 * 60 + Z.abs q mod 60) * 60)
              else None) as Hparse.
  { intros sign Hsign. unfold parseZone.
    cbn [String.eqb]. rewrite Hsign.
    rewrite parseUint_appendInt by (change (10 ^ Z.of_nat 2) with 100; lia).
    cbn [mbind option_bind].
    change (":" +:+ ?x) with (String ":" x). rewrite expect_cons.
    cbn [mbind option_bind].
    rewrite <- (string_app_nil_r (appendInt (Z.abs q mod 60) 2)).
    rewrite parseUint_appendInt by (change (10 ^ Z.of_nat 2) with 100; lia).
    cbn [mbind option_bind]. reflexivity. }
  destruct (q <? 0) eqn:Hneg.
  - apply Z.ltb_lt in Hneg.
    change ("-" +:+ ?x) with (String "-" x). rewrite Hparse by reflexivity.
    cbn [Ascii.eqb Bool.eqb]. f_equal. lia.
  - apply Z.ltb_ge in Hneg.
    change ("+" +:+ ?x) with (String "+" x). rewrite Hparse by reflexivity.
    cbn [Ascii.eqb Bool.eqb]. f_equal. lia.
Qed.

Lemma zoneText_head offset :
  noDigitAhead (zoneText offset)
  /\ match zoneText offset with
     | String c _ => Ascii.eqb "." c = false
     | EmptyString => True
     end.
Proof.
  unfold zoneText. destruct (offset =? 0); [split; reflexivity|].
  destruct (Z.quot offset 60 <? 0); split; reflexivity.
Qed.

Lemma isValid_fields t :
  isValid t = true ->
  (0 <= Year t <= 9999) /\ (1 <= Month t <= 12)
  /\ (1 <= Day t <= daysIn (Month t) (Year t))
  /\ (0 <= Hour t <= 23) /\ (0 <= Minute t <= 59) /\ (0 <= Second t <= 59)
  /\ (0 <= Nanosecond t <= 999999999)
  /\ Offset t mod 60 = 0 /\ (-86400 < Offset t < 86400).
Proof.
  unfold isValid. rewrite !andb_true_iff.
  rewrite !Z.leb_le, !Z.ltb_lt, Z.eqb_eq. tauto.
Qed.

Lemma daysIn_bound m y : 28 <= daysIn m y <= 31.
Proof.
  unfold daysIn.
  repeat match goal with |- context [if ?b then _ else _] => destruct b end; lia.
Qed.

Ltac read_literal :=
  match goal with
  | |- context [expect ?c (String ?c EmptyString +:+ ?x)] =>
      change (String c EmptyString +:+ x) with (String c x);
      rewrite expect_cons; cbn [mbind option_bind]
  end.

(** What [MarshalJSON] writes for a valid time reads back as that time. *)
Lemma parse_format_RFC3339 t :
  isValid t = true -> parseRFC3339 (formatRFC3339Nano t) = Some t.
Proof.
  intros Hv. apply isValid_fields in Hv.
  destruct Hv as (Hy & Hmo & Hd & Hh & Hmi & Hs & Hn & Hoff & Hrange).
  pose proof (daysIn_bound (Month t) (Year t)) as Hdays.
  destruct (zoneText_head (Offset t)) as [Hz1 Hz2].
  unfold parseRFC3339, formatRFC3339Nano.
  rewrite parseUint_appendInt by (change (10 ^ Z.of_nat 4) with 10000; lia).
  cbn [mbind option_bind]. read_literal.
  do 5 (rewrite parseUint_appendInt by (change (10 ^ Z.of_nat 2) with 100; lia);
        cbn [mbind option_bind]; try read_literal).
  rewrite (parseFraction_appendNano _ _ Hn Hz1 Hz2).
  rewrite (parseZone_zoneText _ Hoff Hrange). cbn [mbind option_bind].
  destruct t; reflexivity.
Qed.

Lemma marshal_valid t :
  isValid t = true -> MarshalJSON t = Ok (formatRFC3339Nano t).
Proof.
  intros Hv. apply isValid_fields in Hv.
  destruct Hv as (Hy & _ & _ & _ & _ & _ & _ & Hoff & Hrange).
  unfold MarshalJSON.
  rewrite (proj2 (Z.ltb_ge (Year t) 0)), (proj2 (Z.ltb_ge 9999 (Year t))) by lia.
  cbn [orb].
  assert ((24 <=? Z.abs (Z.quot (Offset t) 60) / 60) = false) as ->; [|now rewrite andb_false_r].
  apply Z.leb_gt. apply Z.div_lt_upper_bound; [lia|].
  apply Z.mod_divide in Hoff; [|lia]. destruct Hoff as [q Hq].
  rewrite Hq, Z.quot_mul by lia. lia.
Qed.

(** *** What is read is valid *)

Lemma digitsValue_bound ds : forall acc,
  Url.allDigits ds = true -> 0 <= acc ->
  acc * 10 ^ Z.of_nat (String.length ds) <= digitsValue acc ds
  < (acc + 1) * 10 ^ Z.of_nat (String.length ds).
Proof.
  induction ds as [|c r IH]; intros acc Hall Hacc.
  - cbn. lia.
  - cbn [Url.allDigits] in Hall. apply andb_true_iff in Hall as [Hc Hr].
    apply isDigit_digitVal in Hc.
    cbn [digitsValue String.length].
    rewrite Nat2Z.inj_succ, Z.pow_succ_r by lia.
    assert (0 <= acc * 10 + digitVal c) as Hacc' by lia.
    specialize (IH (acc * 10 + digitVal c) Hr Hacc').
    assert (0 < 10 ^ Z.of_nat (String.length r)) by (apply Z.pow_pos_nonneg; lia).
    nia.
Qed.

Lemma allDigits_span s : Url.allDigits (spanDigits s).1 = true.
Proof.
  induction s as [|c r IH]; [reflexivity|]. cbn [spanDigits].
  destruct (isDigit c) eqn:Hc; [|reflexivity].
  destruct (spanDigits r) as [ds rest]. cbn [fst Url.allDigits] in *.
  now rewrite Hc, IH.
Qed.

Lemma allDigits_take n : forall s,
  Url.allDigits s = true ->
  Url.allDigits (Strings.take n s) = true /\ (String.length (Strings.take n s) <= n)%nat.
Proof.
  unfold Strings.take.
  induction n as [|n IH]; intros s Hs.
  - destruct s; split; reflexivity.
  - destruct s as [|c r]; [split; cbn; [reflexivity|lia]|].
    cbn [Url.allDigits] in Hs. apply andb_true_iff in Hs as [Hc Hr].
    cbn [String.substring Url.allDigits String.length].
    destruct (IH r Hr) as [H1 H2]. rewrite Hc, H1. split; [reflexivity|lia].
Qed.

Lemma nanosOfDigits_range ds :
  Url.allDigits ds = true -> 0 <= nanosOfDigits ds <= 999999999.
Proof.
  intros Hall. unfold nanosOfDigits.
  destruct (allDigits_take 9 ds Hall) as [H9 Hlen].
  pose proof (digitsValue_bound _ 0 H9 (Z.le_refl 0)) as Hb.
  set (k := String.length (Strings.take 9 ds)) in *.
  set (v := digitsValue 0 (Strings.take 9 ds)) in *.
  assert (10 ^ Z.of_nat k * 10 ^ (9 - Z.of_nat k) = 1000000000) as Hpow.
  { rewrite <- Z.pow_add_r by lia. replace (Z.of_nat k + (9 - Z.of_nat k)) with 9 by lia.
    reflexivity. }
  assert (0 < 10 ^ (9 - Z.of_nat k)) by (apply Z.pow_pos_nonneg; lia).
  assert (0 < 10 ^ Z.of_nat k) by (apply Z.pow_pos_nonneg; lia).
  nia.
Qed.

Lemma parseFraction_range sep s : 0 <= (parseFraction sep s).1 <= 999999999.
Proof.
  unfold parseFraction. destruct s as [|c [|d r]]; cbn [fst]; try lia.
  destruct (sep c && isDigit d); cbn [fst]; [|lia].
  pose proof (allDigits_span (String d r)) as Hall.
  destruct (spanDigits (String d r)) as [ds rest]. cbn [fst] in *.
  apply nanosOfDigits_range. exact Hall.
Qed.

Lemma parseZone_range s offset :
  parseZone s = Some offset -> offset mod 60 = 0 /\ -86400 < offset < 86400.
Proof.
  unfold parseZone. destruct (String.eqb s "Z").
  { intros [= <-]. split; [reflexivity|lia]. }
  destruct s as [|sign r]; [discriminate|].
  destruct (parseUint 2 0 23 r) as [[hr r1]|] eqn:Hhr; [|discriminate].
  cbn [mbind option_bind].
  destruct (expect ":" r1) as [r2|]; [|discriminate]. cbn [mbind option_bind].
  destruct (parseUint 2 0 59 r2) as [[mm r3]|] eqn:Hmm; [|discriminate].
  cbn [mbind option_bind].
  apply parseUint_range in Hhr, Hmm.
  destruct (String.eqb r3 EmptyString); [|discriminate].
  assert (((hr * 60 + mm) * 60) mod 60 = 0) as H1 by (apply Z.mod_mul; lia).
  assert ((- ((hr * 60 + mm) * 60)) mod 60 = 0) as H2.
  { replace (- ((hr * 60 + mm) * 60)) with ((- (hr * 60 + mm)) * 60) by ring.
    apply Z.mod_mul. lia. }
  destruct (Ascii.eqb sign "-"); [intros [= <-]; split; [exact H2|lia]|].
  destruct (Ascii.eqb sign "+"); [intros [= <-]; split; [exact H1|lia]|discriminate].
Qed.

(** A time that [parseRFC3339] accepts is a valid one. *)
Lemma parseRFC3339_valid s t : parseRFC3339 s = Some t -> isValid t = true.
Proof.
  unfold parseRFC3339.
  destruct (parseUint 4 0 9999 s) as [[year s1]|] eqn:H1; [|discriminate].
  cbn [mbind option_bind].
  destruct (expect "-" s1) as [s2|]; [|discriminate]. cbn [mbind option_bind].
  destruct (parseUint 2 1 12 s2) as [[month s3]|] eqn:H2; [|discriminate].
  cbn [mbind option_bind].
  destruct (expect "-" s3) as [s4|]; [|discriminate]. cbn [mbind option_bind].
  destruct (parseUint 2 1 (daysIn month year) s4) as [[day s5]|] eqn:H3; [|discriminate].
  cbn [mbind option_bind].
  destruct (expect "T" s5) as [s6|]; [|discriminate]. cbn [mbind option_bind].
  destruct (parseUint 2 0 23 s6) as [[hour s7]|] eqn:H4; [|discriminate].
  cbn [mbind option_bind].
  destruct (expect ":" s7) as [s8|]; [|discriminate]. cbn [mbind option_bind].
  destruct (parseUint 2 0 59 s8) as [[min s9]|] eqn:H5; [|discriminate].
  cbn [mbind option_bind].
  destruct (expect ":" s9) as [s10|]; [|discriminate]. cbn [mbind option_bind].
  destruct (parseUint 2 0 59 s10) as [[sec s11]|] eqn:H6; [|discriminate].
  cbn [mbind option_bind].
  pose proof (parseFraction_range (Ascii.eqb ".") s11) as Hn.
  destruct (parseFraction (Ascii.eqb ".") s11) as [nsec s12]. cbn [fst] in Hn.
  destruct (parseZone s12) as [offset|] eqn:Hz; [|discriminate].
  cbn [mbind option_bind]. intros [= <-].
  apply parseUint_range in H1, H2, H3, H4, H5, H6.
  apply parseZone_range in Hz. destruct Hz as [Hz1 Hz2].
  unfold isValid. cbn [Year Month Day Hour Minute Second Nanosecond Offset].
  rewrite !andb_true_iff, !Z.leb_le, !Z.ltb_lt, Z.eqb_eq. lia.
Qed.

Lemma zero_valid : isValid zero = true.
Proof. reflexivity. Qed.
End TimeText.

(** ** The persisted form of the schedule *)

Lemma intoStruct_invariant {A : Type} (P : A -> Prop)
    (member : A -> string * json -> result A) :
  (forall cur kv next, P cur -> member cur kv = Ok next -> P next) ->
  forall members cur r,
    P cur -> Json.intoStruct member cur members = Ok r -> P r.
Proof.
  intros Hstep. induction members as [|kv rest IH]; intros cur r Hcur.
  - cbn. intros [= <-]. exact Hcur.
  - cbn [Json.intoStruct]. destruct (member cur kv) as [next|err] eqn:Hm;
      cbn [mbind result_bind]; [|discriminate].
    apply IH. exact (Hstep _ _ _ Hcur Hm).
Qed.

Lemma UnmarshalJSON_valid cur v t :
  Time.isValid cur = true -> Time.UnmarshalJSON cur v = Ok t -> Time.isValid t = true.
Proof.
  intros Hcur. destruct v; cbn [Time.UnmarshalJSON]; try discriminate.
  - intros [= <-]. exact Hcur.
  - destruct (Time.parseRFC3339 s) as [t'|] eqn:Hp; [|discriminate].
    intros [= <-]. exact (parseRFC3339_valid _ _ Hp).
Qed.

Lemma intoScheduledTweet_valid cur kv next :
  validTweet cur -> intoScheduledTweet cur kv = Ok next -> validTweet next.
Proof.
  unfold validTweet, intoScheduledTweet. intros Hcur. destruct kv as [key v].
  repeat match goal with
         | |- context [if ?b then _ else _] => destruct b
         | |- context [Json.intoString ?f ?c ?v] =>
             destruct (Json.intoString f c v); cbn [mbind result_bind]
         end;
    try discriminate; try (intros [= <-]; exact Hcur).
  destruct (Time.UnmarshalJSON (ScheduleTime cur) v) as [t|] eqn:Ht;
    cbn [mbind result_bind]; [|discriminate].
  intros [= <-]. exact (UnmarshalJSON_valid _ _ _ Hcur Ht).
Qed.

Lemma unmarshalTweet_valid v t : unmarshalTweet v = Ok t -> validTweet t.
Proof.
  destruct v; cbn [unmarshalTweet]; try discriminate.
  - intros [= <-]. reflexivity.
  - apply (intoStruct_invariant validTweet intoScheduledTweet
             intoScheduledTweet_valid).
    reflexivity.
Qed.

Lemma mapM_unmarshal_valid vs : forall l,
  Json.mapM unmarshalTweet vs = Ok l -> Forall validTweet l.
Proof.
  induction vs as [|v rest IH]; intros l.
  - cbn. intros [= <-]. constructor.
  - cbn [Json.mapM]. destruct (unmarshalTweet v) as [t|] eqn:Ht;
      cbn [mbind result_bind]; [|discriminate].
    destruct (Json.mapM unmarshalTweet rest) as [ts|]; cbn [mbind result_bind];
      [|discriminate].
    intros [= <-]. constructor; [exact (unmarshalTweet_valid _ _ Ht)|].
    apply IH. reflexivity.
Qed.

(** What is loaded can be written again. *)
Lemma load_valid w tweets :
  loadScheduledTweets w = Ok tweets -> Forall validTweet (elemsOf tweets).
Proof.
  unfold loadScheduledTweets. destruct (schedule w) as [| |[raw|v]]; try discriminate.
  - intros [= <-]. constructor.
  - destruct v; cbn [unmarshalTweets]; try discriminate.
    + intros [= <-]. constructor.
    + destruct (Json.mapM unmarshalTweet elems) as [l|] eqn:Hl;
        cbn [mbind result_bind]; [|discriminate].
      intros [= <-]. exact (mapM_unmarshal_valid _ _ Hl).
Qed.

(** A post that is written and read back is the same post. *)
Lemma marshal_unmarshal_tweet t :
  validTweet t -> exists v, marshalTweet t = Ok v /\ unmarshalTweet v = Ok t.
Proof.
  unfold validTweet. intros Hv. unfold marshalTweet.
  rewrite (marshal_valid _ Hv). cbn [mbind result_bind].
  eexists. split; [reflexivity|].
  destruct t as [text image time id]. cbn [Text Image ScheduleTime ID] in *.
  destruct (String.eqb image EmptyString) eqn:Himg.
  - apply String.eqb_eq in Himg. subst image.
    cbn [app unmarshalTweet Json.intoStruct].
    change (intoScheduledTweet zeroTweet ("text", JString text))
      with (Ok (mkScheduledTweet text EmptyString Time.zero EmptyString)).
    cbn [mbind result_bind].
    change (intoScheduledTweet ?cur ("schedule_time", JString ?s))
      with (x ← Time.UnmarshalJSON (ScheduleTime cur) (JString s);
            Ok (mkScheduledTweet (Text cur) (Image cur) x (ID cur))).
    cbn [Time.UnmarshalJSON]. rewrite (parse_format_RFC3339 _ Hv).
    cbn [mbind result_bind Text Image ID]. reflexivity.
  - cbn [app unmarshalTweet Json.intoStruct].
    change (intoScheduledTweet zeroTweet ("text", JString text))
      with (Ok (mkScheduledTweet text EmptyString Time.zero EmptyString)).
    cbn [mbind result_bind].
    change (intoScheduledTweet ?cur ("image", JString image))
      with (Ok (mkScheduledTweet (Text cur) image (ScheduleTime cur) (ID cur))).
    cbn [mbind result_bind].
    change (intoScheduledTweet ?cur ("schedule_time", JString ?s))
      with (x ← Time.UnmarshalJSON (ScheduleTime cur) (JString s);
            Ok (mkScheduledTweet (Text cur) (Image cur) x (ID cur))).
    cbn [Time.UnmarshalJSON]. rewrite (parse_format_RFC3339 _ Hv).
    cbn [mbind result_bind Text Image ID]. reflexivity.
Qed.

Lemma marshal_unmarshal_list l :
  Forall validTweet l ->
  exists vs, Json.mapM marshalTweet l = Ok vs /\ Json.mapM unmarshalTweet vs = Ok l.
Proof.
  induction 1 as [|t l Ht _ (vs & Hm & Hu)].
  - exists []. split; reflexivity.
  - destruct (marshal_unmarshal_tweet t Ht) as (v & Hmt & Hut).
    exists (v :: vs). cbn [Json.mapM].
    rewrite Hmt, Hm, Hut, Hu. split; reflexivity.
Qed.

(** The persisted form loses nothing: a sequence of posts that is written
    and read back is the same sequence. *)
Lemma marshal_unmarshal_tweets tweets :
  Forall validTweet (elemsOf tweets) ->
  exists v, marshalTweets tweets = Ok v /\ unmarshalTweets v = Ok tweets.
Proof.
  destruct tweets as [|l]; cbn [elemsOf]; intros Hv.
  - exists JNull. split; reflexivity.
  - destruct (marshal_unmarshal_list l Hv) as (vs & Hm & Hu).
    exists (JArray vs). cbn [marshalTweets unmarshalTweets].
    rewrite Hm, Hu. split; reflexivity.
Qed.

Example hand_written_document :
  let tweets :=
    Slice [mkScheduledTweet "hello" "cat.png"
             (Time.mkTime 2024 12 31 23 59 59 500000000 19800) "tweet_7";
           zeroTweet] in
  unmarshalTweets handWrittenDocument = Ok tweets
  /\ marshalTweets tweets
     = Ok (JArray
             [JObject [("text", JString "hello"); ("image", JString "cat.png");
                       ("schedule_time", JString "2024-12-31T23:59:59.5+05:30");
                       ("id", JString "tweet_7")];
              JObject [("text", JString EmptyString);
                       ("schedule_time", JString "0001-01-01T00:00:00Z");
                       ("id", JString EmptyString)]]).
Proof. split; vm_compute; reflexivity. Qed.

(** ** The store *)

Lemma save_then_load tweets w :
  Forall validTweet (elemsOf tweets) -> readOnly w = false ->
  exists data,
    marshalTweets tweets = Ok data
    /\ saveScheduledTweets tweets w = (Ok tt, setSchedule (Stored (Json data)) w)
    /\ loadScheduledTweets (setSchedule (Stored (Json data)) w) = Ok tweets.
Proof.
  intros Hv Hw. destruct (marshal_unmarshal_tweets tweets Hv) as (data & Hm & Hu).
  exists data. unfold saveScheduledTweets, writeStore. rewrite Hm, Hw.
  split; [reflexivity|]. split; [reflexivity|]. exact Hu.
Qed.

Lemma save_read_only tweets w :
  readOnly w = true -> (saveScheduledTweets tweets w).2 = w.
Proof.
  intros Hw. unfold saveScheduledTweets, writeStore. rewrite Hw.
  destruct (marshalTweets tweets); reflexivity.
Qed.

Lemma save_read_only_error tweets w :
  Forall validTweet (elemsOf tweets) -> readOnly w = true ->
  saveScheduledTweets tweets w = (Err (ioError "open" storePath), w).
Proof.
  intros Hv Hw. destruct (marshal_unmarshal_tweets tweets Hv) as (data & Hm & _).
  unfold saveScheduledTweets, writeStore. rewrite Hm, Hw. reflexivity.
Qed.


(** ** Cancelling *)

Lemma cancelLoop_spec tweetID tweets : forall updated found,
  exists kept,
    cancelLoop tweetID tweets (updated, found)
    = (kept, found || existsb (fun t => String.eqb (ID t) tweetID) tweets)
    /\ elemsOf kept = elemsOf updated ++ List.filter (keeps tweetID) tweets.
Proof.
  induction tweets as [|t rest IH]; intros updated found.
  - exists updated. cbn. rewrite orb_false_r, app_nil_r. split; reflexivity.
  - cbn [cancelLoop existsb List.filter]. unfold keeps at 1.
    destruct (String.eqb (ID t) tweetID); cbn [negb].
    + destruct (IH updated true) as (kept & Hk & He). exists kept.
      rewrite Hk, orb_true_r. split; [reflexivity|exact He].
    + destruct (IH (append updated t) found) as (kept & Hk & He). exists kept.
      rewrite Hk. split; [reflexivity|]. rewrite He. unfold append.
      cbn [elemsOf]. now rewrite <- app_assoc.
Qed.

Lemma existsb_ID tweetID tweets :
  existsb (fun t => String.eqb (ID t) tweetID) tweets = true
  <-> In tweetID (map ID tweets).
Proof.
  rewrite existsb_exists, in_map_iff. split.
  - intros (t & Hin & Heq). apply String.eqb_eq in Heq. exists t. split; assumption.
  - intros (t & Heq & Hin). exists t. split; [assumption|]. now apply String.eqb_eq.
Qed.

Lemma Forall_filter_valid f l :
  Forall validTweet l -> Forall validTweet (List.filter f l).
Proof.
  induction 1 as [|t l Ht _ IH]; [constructor|]. cbn [List.filter].
  destruct (f t); [constructor; assumption|assumption].
Qed.


(** ** Worlds with the same schedule *)

Lemma sameStore_refl w : sameStore w w.
Proof. split; reflexivity. Qed.

Lemma sameStore_trans w1 w2 w3 : sameStore w1 w2 -> sameStore w2 w3 -> sameStore w1 w3.
Proof. intros [H1 H2] [H3 H4]. split; congruence. Qed.

Lemma sameStore_tick w : sameStore w (tick w).
Proof. split; reflexivity. Qed.

Lemma load_sameStore w w' : sameStore w w' -> loadScheduledTweets w' = loadScheduledTweets w.
Proof. intros [H _]. unfold loadScheduledTweets. now rewrite H. Qed.

Lemma buildOAuth1Header_sameStore method rawURL params cfg w :
  sameStore w (buildOAuth1Header method rawURL params cfg w).2.
Proof.
  unfold buildOAuth1Header, generateNonce, randRead, timeNow.
  destruct (entropy w (steps w) 16%nat); split; reflexivity.
Qed.

Lemma sendRequest_sameStore doing reading req w :
  sameStore w (sendRequest doing reading req w).2.
Proof.
  unfold sendRequest, clientDo.
  destruct (network w (steps w) req) as [resp|]; [|split; reflexivity].
  destruct (RespBody resp); [|split; reflexivity].
  destruct (300 <=? StatusCode resp); split; reflexivity.
Qed.

Lemma postTweet_sameStore cfg text mediaIDs w :
  sameStore w (postTweet cfg text mediaIDs w).2.
Proof.
  unfold postTweet, tweetRequest.
  destruct (newRequest "POST" tweetEndpoint _) as [req|]; [|apply sameStore_refl].
  pose proof (buildOAuth1Header_sameStore "POST" tweetEndpoint ∅ cfg w) as H.
  destruct (buildOAuth1Header "POST" tweetEndpoint ∅ cfg w) as [[header|] w1];
    cbn [snd] in *; [|exact H].
  pose proof (sendRequest_sameStore "posting tweet" "reading tweet response"
                (setAuthorization header (setContentType "application/json" req)) w1) as H'.
  destruct (sendRequest _ _ _ w1) as [[body|] w2]; cbn [snd] in *;
    exact (sameStore_trans _ _ _ H H').
Qed.

Lemma signedPost_sameStore cfg endpoint params w :
  sameStore w (signedPost cfg endpoint params w).2.
Proof.
  unfold signedPost.
  destruct (newRequest "POST" endpoint _) as [req|]; [|apply sameStore_refl].
  pose proof (buildOAuth1Header_sameStore "POST" endpoint params cfg w) as H.
  destruct (buildOAuth1Header "POST" endpoint params cfg w) as [[header|] w1];
    cbn [snd] in *; [|exact H].
  exact (sameStore_trans _ _ _ H (sendRequest_sameStore _ _ _ w1)).
Qed.

Lemma uploadMedia_sameStore cfg path w :
  sameStore w (uploadMedia cfg path w).2.
Proof.
  unfold uploadMedia.
  destruct (mediaFiles w path) as [data|]; [|apply sameStore_refl].
  match goal with
  | |- context [signedPost cfg mediaUploadEndpoint ?p w] =>
      pose proof (signedPost_sameStore cfg mediaUploadEndpoint p w) as H;
      destruct (signedPost cfg mediaUploadEndpoint p w) as [[body|] w1]
  end; cbn [snd] in *; [|exact H].
  destruct (unmarshalMediaReply body) as [resp|]; [|exact H].
  destruct (String.eqb (MediaIDString resp) EmptyString); [|exact H].
  destruct (negb (String.eqb (ErrorMessage resp) EmptyString)); [exact H|].
  destruct (elemsOf (Errors resp)) as [|msg ?]; [exact H|].
  destruct (negb (String.eqb msg EmptyString)); exact H.
Qed.

Lemma deliver_sameStore cfg tweet w : sameStore w (deliver cfg tweet w).2.
Proof.
  unfold deliver. destruct (negb (String.eqb (Image tweet) EmptyString)).
  - pose proof (uploadMedia_sameStore cfg (Image tweet) w) as H.
    destruct (uploadMedia cfg (Image tweet) w) as [[id|] w1]; cbn [snd] in *;
      [|exact H].
    exact (sameStore_trans _ _ _ H (postTweet_sameStore _ _ _ w1)).
  - apply postTweet_sameStore.
Qed.

(** ** One pass of the daemon *)

(** The loop of the daemon does what [Attempts] says. *)
Lemma deliverDue_attempts cfg now tweets : forall remaining w,
  exists kept w',
    Attempts cfg now w tweets kept w'
    /\ sameStore w w'
    /\ exists remaining',
         deliverDue cfg now tweets (remaining, w) = (remaining', w')
         /\ elemsOf remaining' = elemsOf remaining ++ kept.
Proof.
  induction tweets as [|t rest IH]; intros remaining w.
  - exists [], w. split; [constructor|]. split; [apply sameStore_refl|].
    exists remaining. cbn. now rewrite app_nil_r.
  - cbn [deliverDue]. destruct (isDue now t) eqn:Hdue.
    + pose proof (deliver_sameStore cfg t w) as Hs.
      destruct (deliver cfg t w) as [[[]|err] w1] eqn:Hd; cbn [snd] in Hs.
      * destruct (IH remaining w1) as (kept & w' & Ha & Hs' & rem' & Hr & He).
        exists kept, w'. split; [eapply attempts_delivered; eassumption|].
        split; [exact (sameStore_trans _ _ _ Hs Hs')|]. exists rem'. split; assumption.
      * destruct (IH (append remaining t) w1) as (kept & w' & Ha & Hs' & rem' & Hr & He).
        exists (t :: kept), w'. split; [eapply attempts_failed; eassumption|].
        split; [exact (sameStore_trans _ _ _ Hs Hs')|]. exists rem'.
        split; [assumption|]. rewrite He. unfold append. cbn [elemsOf].
        now rewrite <- app_assoc.
    + destruct (IH (append remaining t) w) as (kept & w' & Ha & Hs' & rem' & Hr & He).
      exists (t :: kept), w'. split; [apply attempts_not_due; assumption|].
      split; [exact Hs'|]. exists rem'.
      split; [assumption|]. rewrite He. unfold append. cbn [elemsOf].
      now rewrite <- app_assoc.
Qed.

(** The pass is a function of the world: [Attempts] has one outcome. *)
Lemma Attempts_functional cfg now w tweets kept1 w1 kept2 w2 :
  Attempts cfg now w tweets kept1 w1 -> Attempts cfg now w tweets kept2 w2 ->
  kept1 = kept2 /\ w1 = w2.
Proof.
  intros H1. revert kept2 w2.
  induction H1 as [w|w t rest kept w' Hdue _ IH|w t rest kept err wa w' Hdue Hd _ IH
                   |w t rest kept wa w' Hdue Hd _ IH];
    intros kept2 w2 H2; inversion H2; subst; try congruence;
    repeat match goal with
           | Ha : deliver ?c ?t ?w = _, Hb : deliver ?c ?t ?w = _ |- _ =>
               rewrite Ha in Hb; inversion Hb; subst; clear Hb
           end;
    try (split; reflexivity);
    match goal with
    | Hr : Attempts _ _ _ _ _ _ |- _ => destruct (IH _ _ Hr) as [-> ->]
    end; split; reflexivity.
Qed.

Lemma Attempts_kept cfg now w tweets kept w' :
  Attempts cfg now w tweets kept w' ->
  (length kept <= length tweets)%nat
  /\ (length kept = length tweets -> kept = tweets)
  /\ (Forall validTweet tweets -> Forall validTweet kept).
Proof.
  induction 1 as [w|w t rest kept w' Hdue _ (IH1 & IH2 & IH3)
                  |w t rest kept err wa w' Hdue Hd _ (IH1 & IH2 & IH3)
                  |w t rest kept wa w' Hdue Hd _ (IH1 & IH2 & IH3)];
    cbn [length].
  - split; [lia|]. split; [reflexivity|]. intros _. constructor.
  - split; [lia|]. split.
    + intros Hl. f_equal. apply IH2. lia.
    + intros Hv. inversion Hv; subst. constructor; auto.
  - split; [lia|]. split.
    + intros Hl. f_equal. apply IH2. lia.
    + intros Hv. inversion Hv; subst. constructor; auto.
  - split; [lia|]. split; [lia|].
    intros Hv. inversion Hv; subst. auto.
Qed.


(** ** The theorems on a schedule of three posts *)




(** Three posts are due, the delivery of the second one fails: the second
    one is the schedule after the pass. *)
Example daemon_one_of_three_fails :
  loadScheduledTweets (daemonTick someConfig flakyWorld)
  = Ok (Slice [mkScheduledTweet "second" EmptyString
                 (Time.mkTime 2024 6 1 9 30 0 0 0) "tweet_2"]).
Proof. vm_compute. reflexivity. Qed.

(** When every delivery fails, nothing is written and every post stays. *)
Example daemon_all_fail :
  let w := mkWorld 0 (clock flakyWorld) (entropy flakyWorld)
                   (fun _ _ => Err netError) (mediaFiles flakyWorld)
                   (mimeTypes flakyWorld) (schedule flakyWorld) false in
  loadScheduledTweets (daemonTick someConfig w) = Ok (Slice threeTweets).
Proof. vm_compute. reflexivity. Qed.

(** ** Creating a scheduled post *)

Lemma handleScheduledTweet_rejects_past text image scheduleAt w scheduleTime :
  parseWith (clock w (steps w)) scheduleAt formats = Ok scheduleTime ->
  Time.Before scheduleTime (clock w (S (steps w))) = true ->
  handleScheduledTweet text image scheduleAt w
  = (Err (errorString "schedule time must be in the future"), tick (tick w)).
Proof.
  intros Hparse Hpast. unfold handleScheduledTweet, parseScheduleTime, timeNow.
  rewrite Hparse. cbn [tick steps clock]. rewrite Hpast. reflexivity.
Qed.

(** A call that is rejected leaves the schedule as it was. *)
Lemma handleScheduledTweet_rejected text image scheduleAt w :
  (handleScheduledTweet text image scheduleAt w).1
  = Err (errorString "schedule time must be in the future") ->
  sameStore w (handleScheduledTweet text image scheduleAt w).2.
Proof.
  unfold handleScheduledTweet, parseScheduleTime, timeNow, generateTweetID.
  destruct (parseWith _ scheduleAt formats) as [t|]; cbn [fst snd];
    [|discriminate].
  destruct (Time.Before t _); [intros _; split; reflexivity|].
  cbn [timeNow]. destruct (saveScheduledTweet _ _) as [[|] w4]; discriminate.
Qed.

(** C8, at the input where the program and the claim part: the due time is
    the time that the clock shows, which is not strictly in the future, and
    the post is accepted and stored. *)
Theorem schedule_time_equal_to_now_is_accepted :
  parseWith (clock frozenWorld 0) "2024-06-01 10:00:00" formats = Ok noon
  /\ Time.Before (clock frozenWorld 1) noon = false
  /\ (handleScheduledTweet "hello" EmptyString "2024-06-01 10:00:00" frozenWorld).1
     = Ok tt
  /\ loadScheduledTweets
       (handleScheduledTweet "hello" EmptyString "2024-06-01 10:00:00" frozenWorld).2
     = Ok (Slice [mkScheduledTweet "hello" EmptyString noon
                    "tweet_1717236000000000000"]).
Proof. repeat split; vm_compute; reflexivity. Qed.

Example schedule_time_in_the_past_is_rejected :
  handleScheduledTweet "hello" EmptyString "09:59" quietWorld
  = (Err (errorString "schedule time must be in the future"), tick (tick quietWorld)).
Proof.
  apply (handleScheduledTweet_rejects_past _ _ _ _ (Time.mkTime 2024 6 1 9 59 0 0 0));
    vm_compute; reflexivity.
Qed.

(** The examples of the specification for the time of a post. *)
Example parseScheduleTime_examples :
  parseWith noon "18:00" formats = Ok (Time.mkTime 2024 6 1 18 0 0 0 0)
  /\ parseWith noon "12-31 23:59" formats = Ok (Time.mkTime 2024 12 31 23 59 0 0 0)
  /\ parseWith noon "2024-01-01 00:00" formats = Ok (Time.mkTime 2024 1 1 0 0 0 0 0).
Proof. repeat split; vm_compute; reflexivity. Qed.

(** ** Reading the schedule document *)

(** C9, as the program has it.  Without a document the schedule is empty and
    listing succeeds.  A document that is not a JSON text makes loading
    fail.  When loading fails, listing and cancelling fail with that error
    and the daemon does nothing in its turn; creating a post goes on as with
    an empty schedule, and writes a document with the new post only. *)
Theorem load_errors (w : World) :
  (schedule w = Missing ->
   loadScheduledTweets w = Ok (Slice [])
   /\ listScheduledTweets w = (Ok [], w))
  /\ (forall raw, schedule w = Stored (Raw raw) ->
      loadScheduledTweets w = Err jsonSyntaxError)
  /\ (forall err, loadScheduledTweets w = Err err ->
      listScheduledTweets w = (Err (wrapError "loading scheduled tweets" err), w)
      /\ (forall tweetID,
            cancelScheduledTweet tweetID w
            = (Err (wrapError "loading scheduled tweets" err), w))
      /\ (forall cfg, daemonTick cfg w = w)
      /\ (forall tweet,
            saveScheduledTweet tweet w = saveScheduledTweets (Slice [tweet]) w)).
Proof.
  split; [|split].
  - intros H. unfold listScheduledTweets, loadScheduledTweets. rewrite H.
    split; reflexivity.
  - intros raw H. unfold loadScheduledTweets. rewrite H. reflexivity.
  - intros err H. unfold listScheduledTweets, cancelScheduledTweet, daemonTick,
      saveScheduledTweet. rewrite H. repeat split; reflexivity.
Qed.

Lemma load_errors_witness :
  loadScheduledTweets corruptWorld = Err jsonSyntaxError
  /\ listScheduledTweets corruptWorld
     = (Err (wrapError "loading scheduled tweets" jsonSyntaxError), corruptWorld)
  /\ cancelScheduledTweet "tweet_1" corruptWorld
     = (Err (wrapError "loading scheduled tweets" jsonSyntaxError), corruptWorld)
  /\ daemonTick someConfig corruptWorld = corruptWorld
  /\ saveScheduledTweet zeroTweet corruptWorld
     = saveScheduledTweets (Slice [zeroTweet]) corruptWorld.
Proof.
  destruct (load_errors corruptWorld) as (_ & Hraw & Herr).
  pose proof (Hraw "[{" eq_refl) as H.
  destruct (Herr _ H) as (Hlist & Hcancel & Htick & Hsave).
  split; [exact H|]. split; [exact Hlist|]. split; [exact (Hcancel _)|].
  split; [exact (Htick _)|exact (Hsave _)].
Defined.

(** C9, as it is written, fails: on a document that cannot be parsed,
    creating a scheduled post succeeds, and the document is replaced. *)
Lemma create_on_corrupt_document_succeeds :
  loadScheduledTweets corruptWorld = Err jsonSyntaxError
  /\ (handleScheduledTweet "hello" EmptyString "2030-01-01 00:00" corruptWorld).1
     = Ok tt
  /\ loadScheduledTweets
       (handleScheduledTweet "hello" EmptyString "2030-01-01 00:00" corruptWorld).2
     = Ok (Slice [mkScheduledTweet "hello" EmptyString
                    (Time.mkTime 2030 1 1 0 0 0 0 0) "tweet_1717236002000000000"]).
Proof. repeat split; vm_compute; reflexivity. Qed.

(** * Further properties of the program *)

(** ** Percent-encoding *)

Lemma string_length_app a b :
  String.length (a +:+ b) = (String.length a + String.length b)%nat.
Proof.
  induction a as [|c a IH]; [reflexivity|].
  change (String c a +:+ b) with (String c (a +:+ b)). cbn [String.length].
  now rewrite IH.
Qed.

Lemma unescape_encodedByte c rest :
  Url.unescape (encodedByte c +:+ rest) Url.encodeQueryComponent
  = (t ← Url.unescape rest Url.encodeQueryComponent; Ok (String c t)).
Proof. destruct c as [[] [] [] [] [] [] [] []]; reflexivity. Qed.

Lemma percentEncode_unescape (s : string) :
  Url.QueryUnescape (percentEncode s) = Ok s.
Proof.
  unfold Url.QueryUnescape. induction s as [|c r IH]; [reflexivity|].
  rewrite percentEncode_cons, unescape_encodedByte, IH. reflexivity.
Qed.

(** X1.  [percentEncode] loses nothing: [url.QueryUnescape] reads every
    encoded text back as the text it came from, so two texts have the same
    encoding only when they are the same text. *)
Theorem percentEncode_decodes (s t : string) :
  Url.QueryUnescape (percentEncode s) = Ok s
  /\ (percentEncode s = percentEncode t <-> s = t).
Proof.
  split; [apply percentEncode_unescape|]. split; [|now intros ->].
  intros Heq. pose proof (percentEncode_unescape s) as Hs.
  rewrite Heq, percentEncode_unescape in Hs. congruence.
Qed.

Lemma encodedByte_length c :
  String.length (encodedByte c) = if unreserved c then 1%nat else 3%nat.
Proof. destruct c as [[] [] [] [] [] [] [] []]; reflexivity. Qed.

Lemma encodedByte_alphabet c :
  allBytes (fun d => unreserved d || Ascii.eqb d "%") (encodedByte c) = true.
Proof. destruct c as [[] [] [] [] [] [] [] []]; reflexivity. Qed.

Lemma encodedByte_unreserved c : unreserved c = true -> encodedByte c = str1 c.
Proof.
  destruct c as [[] [] [] [] [] [] [] []]; intros H; try reflexivity; discriminate H.
Qed.

Lemma allBytes_app p a b : allBytes p (a +:+ b) = allBytes p a && allBytes p b.
Proof.
  induction a as [|c a IH]; [reflexivity|].
  change (String c a +:+ b) with (String c (a +:+ b)). cbn [allBytes].
  now rewrite IH, andb_assoc.
Qed.

Lemma percentEncode_plain s : allBytes unreserved s = true -> percentEncode s = s.
Proof.
  induction s as [|c r IH]; [reflexivity|]. cbn [allBytes].
  intros H. apply andb_true_iff in H as [Hc Hr].
  rewrite percentEncode_cons, (encodedByte_unreserved c Hc), (IH Hr). reflexivity.
Qed.

(** X2.  The shape of an encoded text: each byte that is not a letter, a
    digit or one of [-_.~] takes three bytes instead of one, the text is
    written with those bytes and [%] only, and a text is its own encoding
    exactly when it has no other byte. *)
Theorem percentEncode_shape (s : string) :
  String.length (percentEncode s) = (String.length s + 2 * countEscaped s)%nat
  /\ allBytes (fun d => unreserved d || Ascii.eqb d "%") (percentEncode s) = true
  /\ (percentEncode s = s <-> allBytes unreserved s = true).
Proof.
  assert (String.length (percentEncode s) = (String.length s + 2 * countEscaped s)%nat)
    as Hlen.
  { induction s as [|c r IH]; [reflexivity|].
    rewrite percentEncode_cons, string_length_app, encodedByte_length, IH.
    cbn [String.length countEscaped]. destruct (unreserved c); lia. }
  split; [exact Hlen|]. split; [|split].
  - clear Hlen. induction s as [|c r IH]; [reflexivity|].
    rewrite percentEncode_cons, allBytes_app, encodedByte_alphabet. exact IH.
  - intros Heq. rewrite Heq in Hlen.
    assert (countEscaped s = O) as Hz by lia. clear -Hz.
    induction s as [|c r IH]; [reflexivity|]. cbn [countEscaped allBytes] in *.
    destruct (unreserved c); [apply IH; lia|lia].
  - apply percentEncode_plain.
Qed.

(** ** The nonce *)

Lemma hex_length src :
  String.length (Hex.EncodeToString src) = (2 * String.length src)%nat.
Proof.
  induction src as [|c r IH]; [reflexivity|].
  cbn [Hex.EncodeToString String.length]. lia.
Qed.

Lemma hex_digits src : allBytes isLowerHex (Hex.EncodeToString src) = true.
Proof.
  induction src as [|c r IH]; [reflexivity|]. cbn [Hex.EncodeToString allBytes].
  rewrite IH. destruct c as [[] [] [] [] [] [] [] []]; reflexivity.
Qed.

Lemma lowerHex_unreserved s :
  allBytes isLowerHex s = true -> allBytes unreserved s = true.
Proof.
  induction s as [|c r IH]; [reflexivity|]. cbn [allBytes]. intros H.
  apply andb_true_iff in H as [Hc Hr]. rewrite (IH Hr), andb_true_r.
  revert Hc. destruct c as [[] [] [] [] [] [] [] []]; intros H;
    try reflexivity; discriminate H.
Qed.

(** X3.  When the random source fills the buffer of 16 bytes, the nonce is
    a text of 32 digits of [0-9a-f], which percent-encoding leaves as it is:
    the nonce of the header is the nonce that is signed. *)
Theorem nonce_shape (w : World) (buf : string) :
  entropy w (steps w) 16%nat = Ok buf ->
  String.length buf = 16%nat ->
  exists nonce,
    generateNonce w = (Ok nonce, tick w)
    /\ String.length nonce = 32%nat
    /\ allBytes isLowerHex nonce = true
    /\ percentEncode nonce = nonce.
Proof.
  intros Hrand Hlen. exists (Hex.EncodeToString buf).
  unfold generateNonce, randRead. rewrite Hrand.
  split; [reflexivity|]. split; [rewrite hex_length, Hlen; reflexivity|].
  split; [apply hex_digits|].
  apply percentEncode_plain, lowerHex_unreserved, hex_digits.
Qed.

Lemma nonce_shape_witness :
  entropy quietWorld (steps quietWorld) 16%nat = Ok "****************"
  /\ String.length "****************" = 16%nat
  /\ exists nonce,
       generateNonce quietWorld = (Ok nonce, tick quietWorld)
       /\ String.length nonce = 32%nat
       /\ allBytes isLowerHex nonce = true
       /\ percentEncode nonce = nonce.
Proof.
  split; [reflexivity|]. split; [reflexivity|].
  exact (nonce_shape quietWorld "****************" eq_refl eq_refl).
Defined.

(** ** The base URL *)

Lemma drop_one c s : Strings.drop 1 (String c s) = s.
Proof.
  unfold Strings.drop. cbn [String.length String.substring].
  destruct s as [|d s]; [reflexivity|].
  change (String.substring 0 (S (S (String.length s))) (String d s))
    with (String d (String.substring 0 (S (String.length s)) s)).
  f_equal. clear. revert d. induction s as [|e s IH]; intros d; [reflexivity|].
  cbn [String.length String.substring]. f_equal. apply (IH e).
Qed.

Lemma cutFirst_hash_app raw frag :
  Strings.cutFirst raw "#" = None ->
  Strings.cutFirst (raw +:+ "#" +:+ frag) "#" = Some (raw, frag).
Proof.
  induction raw as [|c r IH].
  - intros _. change (EmptyString +:+ "#" +:+ frag) with (String "#" frag).
    cbn [Strings.cutFirst Strings.HasPrefix String.prefix].
    destruct (ascii_dec "#" "#") as [_|Hne]; [|congruence].
    change (String.length "#") with 1%nat. rewrite drop_one.
    destruct frag; reflexivity.
  - change (String c r +:+ "#" +:+ frag) with (String c (r +:+ "#" +:+ frag)).
    cbn [Strings.cutFirst Strings.HasPrefix String.prefix].
    destruct (ascii_dec "#" c) as [<-|Hne]; [destruct r; discriminate|].
    destruct (Strings.cutFirst r "#") as [[b a]|] eqn:Hr; [discriminate|].
    intros _. rewrite (IH eq_refl). reflexivity.
Qed.

(** X4.  A fragment takes no part in the signature: a URL followed by [#]
    and a fragment that can be unescaped has the base URL and the query
    parameters (or the error) of the URL without it. *)
Theorem normalizeURL_ignores_fragment (raw frag f : string) :
  Strings.cutFirst raw "#" = None ->
  Url.unescape frag Url.encodeFragment = Ok f ->
  normalizeURL (raw +:+ "#" +:+ frag) = normalizeURL raw.
Proof.
  intros Hraw Hfrag. unfold normalizeURL, Url.Parse, Strings.Cut.
  rewrite (cutFirst_hash_app raw frag Hraw), Hraw.
  destruct (Url.parse raw) as [u|e]; cbn [Url.wrapParse mbind result_bind]; [|reflexivity].
  destruct frag as [|c frag']; [reflexivity|].
  rewrite Hfrag. cbn [Url.wrapParse mbind result_bind]. reflexivity.
Qed.

Lemma normalizeURL_ignores_fragment_witness :
  Strings.cutFirst "https://api.twitter.com/2/tweets?a=1" "#" = None
  /\ Url.unescape "top%20of page" Url.encodeFragment = Ok "top of page"
  /\ normalizeURL ("https://api.twitter.com/2/tweets?a=1" +:+ "#" +:+ "top%20of page")
     = normalizeURL "https://api.twitter.com/2/tweets?a=1".
Proof.
  split; [reflexivity|]. split; [reflexivity|].
  exact (normalizeURL_ignores_fragment "https://api.twitter.com/2/tweets?a=1"
           "top%20of page" "top of page" eq_refl eq_refl).
Defined.

(** ** The requests of the program *)

(** X5.  The two requests that the program signs itself, a tweet (no body
    parameter is signed) and a media upload (with or without the category of
    an image), have the parameter string of OAuth 1.0a, sorted by encoded
    key: the order of sorting and encoding makes no difference for them,
    whatever the credentials, the nonce, the timestamp and the media. *)
Theorem own_requests_signed_as_specified (cfg : Config.Config)
    (nonce timestamp data : string) (image : bool) :
  encodeValues (signingValuesOf ∅ (oauthParamsOf cfg nonce timestamp) ∅)
  = specParameterString ∅ (oauthParamsOf cfg nonce timestamp) ∅
  /\ encodeValues
       (signingValuesOf
          (if image
           then <["media_category" := "tweet_image"]> {["media_data" := data]}
           else {["media_data" := data]})
          (oauthParamsOf cfg nonce timestamp) ∅)
     = specParameterString
         (if image
          then <["media_category" := "tweet_image"]> {["media_data" := data]}
          else {["media_data" := data]})
         (oauthParamsOf cfg nonce timestamp) ∅.
Proof.
  split; [|destruct image]; eapply plain_keys_as_specified;
    first [ vm_compute; reflexivity
          | apply (bool_decide_unpack _); vm_compute; reflexivity
          | repeat constructor ].
Qed.

(** ** The store and the commands on it *)



Lemma save_fails_same tweets w err w' :
  saveScheduledTweets tweets w = (Err err, w') -> w' = w.
Proof.
  unfold saveScheduledTweets, writeStore.
  destruct (marshalTweets tweets); [|intros [= _ <-]; reflexivity].
  destruct (readOnly w); [intros [= _ <-]; reflexivity|discriminate].
Qed.

Lemma saveScheduledTweet_appends tweet w tweets :
  loadScheduledTweets w = Ok tweets -> validTweet tweet -> readOnly w = false ->
  (saveScheduledTweet tweet w).1 = Ok tt
  /\ loadScheduledTweets (saveScheduledTweet tweet w).2
     = Ok (Slice (elemsOf tweets ++ [tweet])).
Proof.
  intros Hload Hv Hw. unfold saveScheduledTweet. rewrite Hload.
  assert (Forall validTweet (elemsOf (append tweets tweet))) as Hall.
  { unfold append. cbn [elemsOf]. apply Forall_app. split.
    - exact (load_valid _ _ Hload).
    - constructor; [exact Hv|constructor]. }
  destruct (save_then_load _ w Hall Hw) as (data & _ & Hs & Hl).
  rewrite Hs. split; [reflexivity|exact Hl].
Qed.





(** X9.  Cancelling an identifier a second time, right after a cancel that
    succeeded, fails with the "not found" error: the first call has removed
    every post with that identifier. *)
Theorem cancel_twice (tweetID : string) (w w' : World) :
  cancelScheduledTweet tweetID w = (Ok tt, w') ->
  cancelScheduledTweet tweetID w'
  = (Err (errorString ("tweet with ID " +:+ tweetID +:+ " not found")), w').
Proof.
  unfold cancelScheduledTweet at 1.
  destruct (loadScheduledTweets w) as [tweets|] eqn:Hload; [|discriminate].
  destruct (cancelLoop_spec tweetID (elemsOf tweets) nilSlice false)
    as (kept & Hloop & Hkept).
  rewrite Hloop. cbn [orb elemsOf app] in *.
  destruct (existsb _ (elemsOf tweets)); cbn [negb]; [|discriminate].
  assert (Forall validTweet (elemsOf kept)) as Hv.
  { rewrite Hkept. apply Forall_filter_valid. exact (load_valid _ _ Hload). }
  destruct (readOnly w) eqn:Hw.
  - rewrite (save_read_only_error kept w Hv Hw). discriminate.
  - destruct (save_then_load kept w Hv Hw) as (data & _ & Hsave & Hl).
    rewrite Hsave. intros [= <-].
    unfold cancelScheduledTweet. rewrite Hl.
    destruct (cancelLoop_spec tweetID (elemsOf kept) nilSlice false)
      as (kept2 & Hloop2 & _).
    rewrite Hloop2. cbn [orb].
    assert (existsb (fun t => String.eqb (ID t) tweetID) (elemsOf kept) = false) as Hno.
    { rewrite Hkept. clear. induction (elemsOf tweets) as [|t rest IH]; [reflexivity|].
      cbn [List.filter]. unfold keeps at 1.
      destruct (String.eqb (ID t) tweetID) eqn:Ht; cbn [negb]; [exact IH|].
      cbn [existsb]. rewrite Ht. exact IH. }
    rewrite Hno. reflexivity.
Qed.

Lemma cancel_twice_witness :
  cancelScheduledTweet "tweet_2" flakyWorld
  = (Ok tt, (cancelScheduledTweet "tweet_2" flakyWorld).2)
  /\ cancelScheduledTweet "tweet_2" (cancelScheduledTweet "tweet_2" flakyWorld).2
     = (Err (errorString ("tweet with ID " +:+ "tweet_2" +:+ " not found")),
        (cancelScheduledTweet "tweet_2" flakyWorld).2).
Proof.
  assert (cancelScheduledTweet "tweet_2" flakyWorld
          = (Ok tt, (cancelScheduledTweet "tweet_2" flakyWorld).2)) as H1.
  { assert ((cancelScheduledTweet "tweet_2" flakyWorld).1 = Ok tt) as H
      by (vm_compute; reflexivity).
    destruct (cancelScheduledTweet "tweet_2" flakyWorld) as [r w1].
    cbn [fst snd] in *. now rewrite H. }
  split; [exact H1|]. exact (cancel_twice "tweet_2" flakyWorld _ H1).
Defined.

Lemma listStatuses_spec tweets : forall w,
  map fst (listStatuses tweets w).1 = tweets
  /\ (listStatuses tweets w).2
     = mkWorld (steps w + length tweets) (clock w) (entropy w) (network w)
               (mediaFiles w) (mimeTypes w) (schedule w) (readOnly w)
  /\ forall i t b, (listStatuses tweets w).1 !! i = Some (t, b) ->
       b = Time.Before (ScheduleTime t) (clock w (steps w + i)).
Proof.
  induction tweets as [|t rest IH]; intros w.
  - cbn. split; [reflexivity|]. split.
    + rewrite Nat.add_0_r. destruct w; reflexivity.
    + intros i t b H. discriminate H.
  - cbn [listStatuses timeNow]. destruct (IH (tick w)) as (H1 & H2 & H3).
    destruct (listStatuses rest (tick w)) as [lines w2]; cbn [fst snd] in *.
    split; [cbn; now rewrite H1|]. split.
    + rewrite H2. cbn [tick steps clock entropy network mediaFiles mimeTypes
                       schedule readOnly length].
      f_equal. lia.
    + intros [|i] t' b.
      * cbn. intros [= <- <-]. now rewrite Nat.add_0_r.
      * cbn [lookup list_lookup]. intros H. rewrite (H3 i t' b H).
        cbn [tick steps clock]. f_equal. f_equal. lia.
Qed.

(** X10.  Listing a schedule that loads shows every post once, in the order
    of the document, and leaves the document as it was; the status of the
    post at position [i] is "overdue" exactly when its time is strictly
    before the reading of the clock made for it, and every post that is
    shown as overdue is due for the daemon at that reading. *)
Theorem list_spec (w : World) (tweets : slice scheduledTweet) :
  loadScheduledTweets w = Ok tweets ->
  exists lines w',
    listScheduledTweets w = (Ok lines, w')
    /\ map fst lines = elemsOf tweets
    /\ sameStore w w'
    /\ forall i t overdue, lines !! i = Some (t, overdue) ->
         overdue = Time.Before (ScheduleTime t) (clock w (steps w + i))
         /\ (overdue = true -> isDue (clock w (steps w + i)) t = true).
Proof.
  intros Hload. unfold listScheduledTweets. rewrite Hload.
  destruct (listStatuses_spec (elemsOf tweets) w) as (H1 & H2 & H3).
  destruct (listStatuses (elemsOf tweets) w) as [lines w1]; cbn [fst snd] in *.
  exists lines, w1. split; [reflexivity|]. split; [exact H1|]. split.
  - rewrite H2. split; reflexivity.
  - intros i t b H. pose proof (H3 i t b H) as Hb. split; [exact Hb|].
    intros ->. unfold isDue. now rewrite <- Hb.
Qed.

Lemma list_spec_witness :
  loadScheduledTweets flakyWorld = Ok (Slice threeTweets)
  /\ exists lines w',
       listScheduledTweets flakyWorld = (Ok lines, w')
       /\ map fst lines = threeTweets
       /\ sameStore flakyWorld w'
       /\ forall i t overdue, lines !! i = Some (t, overdue) ->
            overdue = Time.Before (ScheduleTime t)
                        (clock flakyWorld (steps flakyWorld + i))
            /\ (overdue = true ->
                isDue (clock flakyWorld (steps flakyWorld + i)) t = true).
Proof.
  assert (loadScheduledTweets flakyWorld = Ok (Slice threeTweets)) as H1
    by (vm_compute; reflexivity).
  split; [exact H1|]. exact (list_spec flakyWorld (Slice threeTweets) H1).
Defined.

(** ** The daemon *)

Lemma deliverDue_idle cfg now tweets : forall remaining w,
  Forall (fun t => isDue now t = false) tweets ->
  deliverDue cfg now tweets (remaining, w)
  = (match tweets with
     | [] => remaining
     | _ => Slice (elemsOf remaining ++ tweets)
     end, w).
Proof.
  induction tweets as [|t rest IH]; intros remaining w Hall; [reflexivity|].
  inversion Hall as [|? ? Ht Hrest]; subst. cbn [deliverDue]. rewrite Ht.
  rewrite (IH _ _ Hrest). unfold append. cbn [elemsOf].
  destruct rest; [reflexivity|]. now rewrite <- app_assoc.
Qed.

(** X11.  A pass of the daemon over a schedule in which no post is due
    reads the clock once and does nothing else: no request is signed or
    sent, and the document is not written. *)
Theorem daemon_idle (cfg : Config.Config) (w : World) (tweets : slice scheduledTweet) :
  loadScheduledTweets w = Ok tweets ->
  Forall (fun t => isDue (clock w (steps w)) t = false) (elemsOf tweets) ->
  daemonTick cfg w = tick w.
Proof.
  intros Hload Hall. unfold daemonTick. rewrite Hload. cbn [timeNow].
  rewrite (deliverDue_idle _ _ _ _ _ Hall). unfold len.
  destruct (elemsOf tweets) as [|t rest]; cbn [elemsOf app]; [reflexivity|].
  now rewrite Nat.eqb_refl.
Qed.

Lemma daemon_idle_witness :
  loadScheduledTweets (handleScheduledTweet "hello" EmptyString "18:30" quietWorld).2
  = Ok (Slice [mkScheduledTweet "hello" EmptyString (Time.mkTime 2024 6 1 18 30 0 0 0)
                 "tweet_1717236002000000000"])
  /\ daemonTick someConfig (handleScheduledTweet "hello" EmptyString "18:30" quietWorld).2
     = tick (handleScheduledTweet "hello" EmptyString "18:30" quietWorld).2.
Proof.
  assert (loadScheduledTweets
            (handleScheduledTweet "hello" EmptyString "18:30" quietWorld).2
          = Ok (Slice [mkScheduledTweet "hello" EmptyString
                         (Time.mkTime 2024 6 1 18 30 0 0 0)
                         "tweet_1717236002000000000"])) as H1
    by (vm_compute; reflexivity).
  split; [exact H1|].
  apply (daemon_idle someConfig _ _ H1).
  constructor; [vm_compute; reflexivity|constructor].
Defined.

Lemma Attempts_sublist cfg now w tweets kept w' :
  Attempts cfg now w tweets kept w' -> sublist kept tweets.
Proof.
  induction 1; [constructor|constructor; assumption|constructor; assumption|].
  apply sublist_cons. assumption.
Qed.

Lemma daemonTick_shrinks cfg w tweets :
  loadScheduledTweets w = Ok tweets ->
  exists tweets',
    loadScheduledTweets (daemonTick cfg w) = Ok tweets'
    /\ sublist (elemsOf tweets') (elemsOf tweets).
Proof.
  intros Hload. unfold daemonTick. rewrite Hload. cbn [timeNow].
  destruct (deliverDue_attempts cfg (clock w (steps w)) (elemsOf tweets) nilSlice (tick w))
    as (kept & w' & Ha & Hs & remaining & Hr & He).
  rewrite Hr. cbn [elemsOf app] in He.
  destruct (Attempts_kept _ _ _ _ _ _ Ha) as (_ & _ & Hvalid).
  assert (sameStore w w') as Hs' by exact (sameStore_trans _ _ _ (sameStore_tick w) Hs).
  destruct (negb _).
  - assert (Forall validTweet (elemsOf remaining)) as Hv.
    { rewrite He. apply Hvalid. exact (load_valid _ _ Hload). }
    destruct (readOnly w') eqn:Hw.
    + rewrite (save_read_only _ _ Hw), (load_sameStore _ _ Hs').
      exists tweets. split; [exact Hload|reflexivity].
    + destruct (save_then_load remaining w' Hv Hw) as (data & _ & Hsave & Hl).
      rewrite Hsave. exists remaining. split; [exact Hl|].
      rewrite He. exact (Attempts_sublist _ _ _ _ _ _ Ha).
  - rewrite (load_sameStore _ _ Hs'). exists tweets. split; [exact Hload|reflexivity].
Qed.



(** X13.  When the schedule document cannot be loaded, the daemon changes
    nothing, pass after pass: it neither repairs nor overwrites the
    document, reads no clock and sends no request. *)
Theorem daemon_leaves_unreadable_schedule (cfg : Config.Config) (n : nat) (w : World) :
  isErr (loadScheduledTweets w) = true -> daemonLoop cfg n w = w.
Proof.
  intros Herr. induction n as [|n IH]; [reflexivity|].
  cbn [daemonLoop]. unfold daemonTick.
  destruct (loadScheduledTweets w); [discriminate|]. exact IH.
Qed.

Lemma daemon_leaves_unreadable_schedule_witness :
  isErr (loadScheduledTweets corruptWorld) = true
  /\ daemonLoop someConfig 7 corruptWorld = corruptWorld.
Proof.
  assert (isErr (loadScheduledTweets corruptWorld) = true) as H1 by reflexivity.
  split; [exact H1|].
  exact (daemon_leaves_unreadable_schedule someConfig 7 corruptWorld H1).
Defined.

(** ** Identifiers *)

Lemma string_app_inj_l (a b c : string) : a +:+ b = a +:+ c -> b = c.
Proof.
  induction a as [|x a IH]; [auto|].
  change (String x a +:+ b) with (String x (a +:+ b)).
  change (String x a +:+ c) with (String x (a +:+ c)).
  intros [= H]. exact (IH H).
Qed.

(** X14.  The identifiers of two posts are the same exactly when the two
    readings of the clock they were made from have the same count of
    nanoseconds ([UnixNano], a 64-bit integer). *)
Theorem tweet_ids_follow_the_clock (w1 w2 : World) :
  (generateTweetID w1).1 = (generateTweetID w2).1
  <-> Time.UnixNano (clock w1 (steps w1)) = Time.UnixNano (clock w2 (steps w2)).
Proof.
  unfold generateTweetID, timeNow. cbn [fst]. split.
  - intros H. apply string_app_inj_l in H. exact (inj pretty _ _ H).
  - intros ->. reflexivity.
Qed.

(** ** The time of a scheduled post *)

Lemma colons_cons c s : colons (String c s) = ((if Ascii.eqb c ":" then 1 else 0) + colons s)%nat.
Proof. reflexivity. Qed.


Lemma colons_takeDigits n : forall acc s x r,
  Time.takeDigits n acc s = Some (x, r) -> (colons r <= colons s)%nat.
Proof.
  induction n as [|n IH]; intros acc s x r; cbn [Time.takeDigits].
  - intros [= _ <-]. lia.
  - destruct s as [|c s]; [discriminate|]. destruct (isDigit c); [|discriminate].
    intros H. apply IH in H. rewrite ?colons_cons. lia.
Qed.

Lemma colons_getnum s fixed x r :
  Time.getnum s fixed = Some (x, r) -> (colons r <= colons s)%nat.
Proof.
  unfold Time.getnum. destruct s as [|a [|b r']]; try discriminate;
    destruct (isDigit a); try discriminate.
  - destruct fixed; [discriminate|]. intros [= _ <-]. rewrite ?colons_cons. lia.
  - destruct (isDigit b).
    + intros [= _ <-]. rewrite ?colons_cons. lia.
    + destruct fixed; [discriminate|]. intros [= _ <-]. rewrite ?colons_cons. lia.
Qed.

Lemma colons_cutspace s : (colons (Time.cutspace s) <= colons s)%nat.
Proof.
  induction s as [|c s IH]; [reflexivity|]. cbn [Time.cutspace].
  destruct (isSpace c); [|lia]. rewrite colons_cons. lia.
Qed.

Lemma colons_skip1 v c v' :
  Time.skip1 v c = Some v' -> (colons v' <= colons v)%nat.
Proof.
  unfold Time.skip1, Time.expect. destruct (isSpace c).
  - destruct v as [|d v]; [intros [= <-]; lia|].
    destruct (isSpace d) eqn:Hd; [|discriminate]. intros [= <-].
    exact (colons_cutspace (String d v)).
  - destruct v as [|d v]; [discriminate|].
    destruct (Ascii.eqb c d); [|discriminate]. intros [= <-].
    rewrite ?colons_cons. lia.
Qed.

Lemma colons_skip prefix : forall v v',
  Time.skip v prefix = Some v' -> (colons v' <= colons v)%nat.
Proof.
  induction prefix as [|c p IH]; intros v v'; cbn [Time.skip].
  - intros [= <-]. lia.
  - destruct (Time.skip1 v c) as [v1|] eqn:H1; cbn [mbind option_bind]; [|discriminate].
    intros H. apply IH in H. apply colons_skip1 in H1. lia.
Qed.

Lemma colons_spanDigits s : (colons (Time.spanDigits s).2 <= colons s)%nat.
Proof.
  induction s as [|c s IH]; [reflexivity|]. cbn [Time.spanDigits].
  destruct (isDigit c); [|cbn; lia].
  destruct (Time.spanDigits s) as [ds rest]. cbn [snd] in *. rewrite colons_cons. lia.
Qed.

Lemma colons_parseFraction sep s : (colons (Time.parseFraction sep s).2 <= colons s)%nat.
Proof.
  unfold Time.parseFraction. destruct s as [|c [|d r]]; try (cbn; lia).
  destruct (sep c && isDigit d); [|cbn [snd]; lia].
  pose proof (colons_spanDigits (String d r)) as H.
  destruct (Time.spanDigits (String d r)) as [ds rest]. cbn [snd] in *.
  rewrite ?colons_cons in *. lia.
Qed.

Lemma colons_parseChunk c f v f' v' :
  Time.parseChunk c (f, v) = Some (f', v') -> (colons v' <= colons v)%nat.
Proof.
  destruct c as [p| | | | | |]; cbn [Time.parseChunk].
  - destruct (Time.skip v p) as [v1|] eqn:H; cbn [mbind option_bind]; [|discriminate].
    intros [= _ <-]. exact (colons_skip _ _ _ H).
  - destruct (Time.takeDigits 4 0 v) as [[y v1]|] eqn:H; cbn [mbind option_bind];
      [|discriminate].
    intros [= _ <-]. exact (colons_takeDigits _ _ _ _ _ H).
  - destruct (Time.getnum v true) as [[m v1]|] eqn:H; cbn [mbind option_bind];
      [|discriminate].
    destruct (_ || _); [discriminate|]. intros [= _ <-]. exact (colons_getnum _ _ _ _ H).
  - destruct (Time.getnum v true) as [[m v1]|] eqn:H; cbn [mbind option_bind];
      [|discriminate].
    intros [= _ <-]. exact (colons_getnum _ _ _ _ H).
  - destruct (Time.getnum v false) as [[m v1]|] eqn:H; cbn [mbind option_bind];
      [|discriminate].
    destruct (24 <=? m); [discriminate|]. intros [= _ <-]. exact (colons_getnum _ _ _ _ H).
  - destruct (Time.getnum v true) as [[m v1]|] eqn:H; cbn [mbind option_bind];
      [|discriminate].
    destruct (60 <=? m); [discriminate|]. intros [= _ <-]. exact (colons_getnum _ _ _ _ H).
  - destruct (Time.getnum v true) as [[m v1]|] eqn:H; cbn [mbind option_bind];
      [|discriminate].
    destruct (60 <=? m); [discriminate|].
    pose proof (colons_parseFraction (fun c => Ascii.eqb c "." || Ascii.eqb c ",") v1) as Hf.
    destruct (Time.parseFraction _ v1) as [nsec v2]. cbn [snd] in Hf.
    intros [= _ <-]. apply colons_getnum in H. lia.
Qed.

Lemma skip_colon v v' : Time.skip v ":" = Some v' -> v = String ":" v'.
Proof.
  destruct v as [|d v]; [discriminate|].
  destruct d as [[] [] [] [] [] [] [] []]; try discriminate.
  cbn. now intros [= <-].
Qed.

Lemma colon_needed cs : forall f v st,
  In (Time.literal ":") cs ->
  Time.parseChunks cs (f, v) = Some st -> (1 <= colons v)%nat.
Proof.
  induction cs as [|c cs IH]; intros f v st; [intros []|].
  cbn [Time.parseChunks]. intros Hin.
  destruct (Time.parseChunk c (f, v)) as [[f1 v1]|] eqn:Hc; cbn [mbind option_bind];
    [|discriminate].
  intros Hrest. destruct Hin as [->|Hin].
  - clear Hrest IH. cbn [Time.parseChunk] in Hc.
    destruct (Time.skip v ":") as [v2|] eqn:Hs; cbn [mbind option_bind] in Hc;
      [|discriminate].
    apply skip_colon in Hs. subst v. rewrite colons_cons. cbn. lia.
  - apply colons_parseChunk in Hc. specialize (IH _ _ _ Hin Hrest). lia.
Qed.

Lemma Parse_needs_colon layout s :
  In layout formats -> colons s = 0%nat ->
  Time.Parse layout s = Err (timeParseError layout s).
Proof.
  intros Hin Hs. unfold Time.Parse.
  destruct (Time.parseChunks _ _) as [[f v]|] eqn:Hp; [|reflexivity].
  exfalso. apply colon_needed in Hp; [lia|].
  cbn in Hin. destruct Hin as [<-|[<-|[<-|[<-|[]]]]]; vm_compute; tauto.
Qed.

(** X15.  A time text without a colon, a date alone for one, is refused
    whatever the clock shows: the call fails with the "invalid time format"
    error after one reading of the clock, and nothing is stored. *)
Theorem schedule_time_needs_colon (text image scheduleAt : string) (w : World) :
  colons scheduleAt = 0%nat ->
  handleScheduledTweet text image scheduleAt w
  = (Err (wrapError "invalid schedule time" invalidTimeFormat), tick w).
Proof.
  intros Hs. unfold handleScheduledTweet, parseScheduleTime, timeNow, formats.
  cbn [parseWith].
  rewrite !(fun l H => Parse_needs_colon l scheduleAt H Hs) by (cbn; tauto).
  reflexivity.
Qed.

Lemma schedule_time_needs_colon_witness :
  colons "2024-12-25" = 0%nat
  /\ handleScheduledTweet "hello" EmptyString "2024-12-25" quietWorld
     = (Err (wrapError "invalid schedule time" invalidTimeFormat), tick quietWorld).
Proof.
  split; [reflexivity|].
  exact (schedule_time_needs_colon "hello" EmptyString "2024-12-25" quietWorld eq_refl).
Defined.

Lemma Parse_full layout s t :
  layout = "2006-01-02 15:04:05" \/ layout = "2006-01-02 15:04" ->
  Time.Parse layout s = Ok t -> startsWithYear s = true /\ Time.Offset t = 0.
Proof.
  intros Hl. unfold Time.Parse, startsWithYear.
  assert (exists cs, Time.chunksOf layout = Time.stdLongYear :: cs) as [cs ->]
    by (destruct Hl as [->| ->]; eexists; reflexivity).
  cbn [Time.parseChunks Time.parseChunk].
  destruct (Time.takeDigits 4 0 s) as [[y v]|]; cbn [mbind option_bind]; [|discriminate].
  destruct (Time.parseChunks cs _) as [[f [|]]|]; try discriminate.
  destruct (_ || _); [discriminate|]. intros [= <-]. split; reflexivity.
Qed.

Lemma getnum_fixed_shape s x v :
  Time.getnum s true = Some (x, v) ->
  exists a b, s = String a (String b v) /\ isDigit a = true /\ isDigit b = true.
Proof.
  unfold Time.getnum. destruct s as [|a [|b r]]; try discriminate;
    destruct (isDigit a) eqn:Ha; try discriminate.
  destruct (isDigit b) eqn:Hb; [|discriminate]. intros [= _ <-].
  exists a, b. split; [reflexivity|]. split; assumption.
Qed.

Lemma Parse_short layout s t :
  layout = "01-02 15:04" \/ layout = "15:04" ->
  Time.Parse layout s = Ok t -> startsWithYear s = false.
Proof.
  intros Hl. unfold Time.Parse.
  destruct (Time.parseChunks _ _) as [[f rest]|] eqn:Hp; [|discriminate]. intros _.
  unfold startsWithYear. destruct Hl as [-> | ->].
  - change (Time.chunksOf "01-02 15:04")
      with [Time.stdZeroMonth; Time.literal "-"; Time.stdZeroDay; Time.literal " ";
            Time.stdHour; Time.literal ":"; Time.stdZeroMinute] in Hp.
    cbn [Time.parseChunks Time.parseChunk] in Hp.
    destruct (Time.getnum s true) as [[m v]|] eqn:Hg; cbn [mbind option_bind] in Hp;
      [|discriminate].
    apply getnum_fixed_shape in Hg as (a & b & -> & Ha & Hb).
    destruct (_ || _); [discriminate|].
    cbn [Time.parseChunks Time.parseChunk mbind option_bind] in Hp.
    destruct v as [|d v]; [discriminate|].
    cbn [Time.takeDigits]. rewrite Ha, Hb.
    destruct d as [[] [] [] [] [] [] [] []]; try reflexivity; discriminate.
  - change (Time.chunksOf "15:04")
      with [Time.stdHour; Time.literal ":"; Time.stdZeroMinute] in Hp.
    cbn [Time.parseChunks Time.parseChunk] in Hp.
    destruct (Time.getnum s false) as [[h v]|] eqn:Hg; cbn [mbind option_bind] in Hp;
      [|discriminate].
    destruct (24 <=? h); [discriminate|].
    cbn [Time.parseChunks Time.parseChunk mbind option_bind] in Hp.
    destruct (Time.skip v ":") as [v2|] eqn:Hs; cbn [mbind option_bind] in Hp;
      [|discriminate].
    apply skip_colon in Hs. subst v.
    unfold Time.getnum in Hg. destruct s as [|a [|b r]]; try discriminate;
      destruct (isDigit a) eqn:Ha; try discriminate.
    destruct (isDigit b) eqn:Hb.
    + injection Hg as _ ->. cbn [Time.takeDigits]. rewrite Ha, Hb. reflexivity.
    + injection Hg as _ Hb' Hr. subst. cbn [Time.takeDigits].
      rewrite Ha. reflexivity.
Qed.

Lemma Date_whole_minute y mo d h mi off :
  Time.Offset (Time.Date y mo d h mi 0 0 off) = off
  /\ Time.Second (Time.Date y mo d h mi 0 0 off) = 0
  /\ Time.Nanosecond (Time.Date y mo d h mi 0 0 off) = 0.
Proof.
  unfold Time.Date.
  destruct (Time.civilFromDays _) as [[y' m'] d']. cbn [Time.Offset Time.Second Time.Nanosecond].
  split; [reflexivity|]. split; [|reflexivity].
  change (0 / 1000000000) with 0.
  set (D := Time.daysFromCivil _ _ _).
  replace (D * 86400 + h * 3600 + mi * 60 + 0 + 0) with ((D * 1440 + h * 60 + mi) * 60) by lia.
  set (k := D * 1440 + h * 60 + mi).
  Z.div_mod_to_equations. lia.
Qed.



(** *** The calendar *)

Lemma yearsChecked_holds : yearsChecked = true.
Proof. vm_compute. reflexivity. Qed.

Lemma monthsChecked_holds : monthsChecked = true.
Proof. vm_compute. reflexivity. Qed.

Lemma forallb_seqZ (f : Z -> bool) lo n x :
  forallb f (seqZ lo n) = true -> lo <= x < lo + n -> f x = true.
Proof.
  intros H Hx. rewrite forallb_forall in H. apply H.
  apply list_elem_of_In, elem_of_seqZ. lia.
Qed.

Lemma yearOfEra_step a :
  0 <= a ->
  a - a / 1460 + a / 36524 - a / 146096
  <= (a + 1) - (a + 1) / 1460 + (a + 1) / 36524 - (a + 1) / 146096.
Proof. intros Ha. Z.div_mod_to_equations. lia. Qed.

Lemma yearOfEra_mono a b : 0 <= a <= b -> yearOfEra a <= yearOfEra b.
Proof.
  intros [Ha Hab]. unfold yearOfEra. apply Z.div_le_mono; [lia|].
  replace b with (a + Z.of_nat (Z.to_nat (b - a))) by lia.
  induction (Z.to_nat (b - a)) as [|n IH]; [rewrite Z.add_0_r; lia|].
  etransitivity; [exact IH|].
  replace (a + Z.of_nat (S n)) with (a + Z.of_nat n + 1) by lia.
  apply yearOfEra_step. lia.
Qed.

Lemma year_facts yoe :
  0 <= yoe < 400 ->
  yearOfEra (yearStart yoe) = yoe /\ yearOfEra (yearEnd yoe) = yoe
  /\ 364 <= yearEnd yoe - yearStart yoe
  /\ 0 <= yearStart yoe /\ yearEnd yoe <= 146096
  /\ yearEnd yoe - yearStart yoe = (if Time.isLeap (yoe + 1) then 365 else 364).
Proof.
  intros Hy.
  assert (0 <= yoe < 0 + 400) as Hy' by lia.
  pose proof (forallb_seqZ yearChecked 0 400 yoe yearsChecked_holds Hy') as H.
  unfold yearChecked in H. rewrite !andb_true_iff in H.
  destruct H as (((((H1 & H2) & H3) & H4) & H5) & H6).
  split; [lia|]. split; [lia|]. split; [lia|]. split; [lia|]. split; [lia|].
  destruct (Time.isLeap (yoe + 1)); lia.
Qed.

Lemma yearOfEra_within yoe doe :
  0 <= yoe < 400 -> yearStart yoe <= doe <= yearEnd yoe -> yearOfEra doe = yoe.
Proof.
  intros Hy Hd. destruct (year_facts yoe Hy) as (H1 & H2 & _ & H4 & _).
  assert (0 <= yearStart yoe <= doe) as Ha by lia.
  assert (0 <= doe <= yearEnd yoe) as Hb by lia.
  pose proof (yearOfEra_mono _ _ Ha). pose proof (yearOfEra_mono _ _ Hb). lia.
Qed.

Lemma month_facts mp d :
  0 <= mp < 12 -> 1 <= d <= Time.daysIn (civilMonth mp) 0 ->
  (5 * ((153 * mp + 2) / 5 + d - 1) + 2) / 153 = mp
  /\ 0 <= (153 * mp + 2) / 5 + d - 1 <= 365
  /\ ((153 * mp + 2) / 5 + d - 1 <= 364 \/ (mp = 11 /\ d = 29)).
Proof.
  intros Hm Hd.
  assert (0 <= mp < 0 + 12) as Hm' by lia.
  pose proof (forallb_seqZ monthChecked 0 12 mp monthsChecked_holds Hm') as H.
  unfold monthChecked in H.
  assert (1 <= d < 1 + Time.daysIn (civilMonth mp) 0) as Hd' by lia.
  pose proof (forallb_seqZ (dayChecked mp) 1 _ d H Hd') as H'.
  unfold dayChecked in H'. cbv zeta in H'. clear H. rewrite !andb_true_iff in H'.
  destruct H' as (((H1 & H2) & H3) & H4).
  assert (0 <= (153 * mp + 2) / 5) by (apply Z.div_pos; lia).
  split; [lia|]. split; [lia|].
  apply orb_true_iff in H4 as [H4|H4]; [left; lia|right].
  apply andb_true_iff in H4. lia.
Qed.

Lemma daysIn_leap_year m y : Time.daysIn m y <= Time.daysIn m 0.
Proof.
  unfold Time.daysIn. change (Time.isLeap 0) with true.
  destruct (m =? 2); cbn [andb]; [destruct (Time.isLeap y); lia|].
  destruct (_ || _); lia.
Qed.

Lemma isLeap_shift e r : Time.isLeap (400 * e + r) = Time.isLeap r.
Proof.
  unfold Time.isLeap.
  replace (400 * e + r) with (r + (100 * e) * 4) at 1 by lia.
  replace (400 * e + r) with (r + (4 * e) * 100) at 1 by lia.
  replace (400 * e + r) with (r + e * 400) at 1 by lia.
  now rewrite !Z.mod_add by lia.
Qed.

(** Counting the days up to a date and reading the date back gives the
    date. *)
Lemma civil_roundtrip y m d :
  1 <= m <= 12 -> 1 <= d <= Time.daysIn m y ->
  Time.civilFromDays (Time.daysFromCivil y m d) = (y, m, d).
Proof.
  intros Hm Hd. unfold Time.daysFromCivil.
  set (y' := if m <=? 2 then y - 1 else y).
  set (mp := if m <=? 2 then m + 9 else m - 3).
  set (era := y' / 400). set (yoe := y' - era * 400).
  assert (0 <= yoe < 400) as Hyoe.
  { unfold yoe, era. pose proof (Z.mod_pos_bound y' 400 ltac:(lia)) as Hb.
    rewrite Z.mod_eq in Hb by lia. lia. }
  assert (0 <= mp < 12) as Hmp by (unfold mp; destruct (m <=? 2) eqn:E; lia).
  assert (civilMonth mp = m) as Hcm.
  { unfold civilMonth, mp. destruct (m <=? 2) eqn:E.
    - destruct (m + 9 <? 10) eqn:E'; lia.
    - destruct (m - 3 <? 10) eqn:E'; lia. }
  assert (1 <= d <= Time.daysIn (civilMonth mp) 0) as Hd0.
  { rewrite Hcm. pose proof (daysIn_leap_year m y). lia. }
  destruct (month_facts mp d Hmp Hd0) as (Hmonth & Hdoy & Hlast).
  destruct (year_facts yoe Hyoe) as (_ & _ & Hlen & Hstart & Hend & Hleap).
  set (doy := (153 * mp + 2) / 5 + d - 1) in *.
  assert (doy <= yearEnd yoe - yearStart yoe) as Hfit.
  { destruct Hlast as [Hlast|[Hm11 Hd29]]; [lia|].
    assert (m = 2) as -> by (unfold mp in Hm11; destruct (m <=? 2) eqn:E; lia).
    assert (Time.isLeap y = true) as Hy.
    { unfold Time.daysIn in Hd. change (2 =? 2) with true in Hd. cbn [andb] in Hd.
      destruct (Time.isLeap y); [reflexivity|lia]. }
    replace y with (400 * era + (yoe + 1)) in Hy; [rewrite isLeap_shift in Hy|].
    { rewrite Hy in Hleap. lia. }
    unfold yoe, y'. change (if 2 <=? 2 then y - 1 else y) with (y - 1). lia. }
  fold (yearStart yoe).
  unfold Time.civilFromDays.
  replace (era * 146097 + (yearStart yoe + doy) - 719468 + 719468)
    with (era * 146097 + (yearStart yoe + doy)) by lia.
  rewrite Z.div_add_l by lia.
  rewrite (Z.div_small (yearStart yoe + doy) 146097) by lia.
  replace (era * 146097 + (yearStart yoe + doy) - (era + 0) * 146097)
    with (yearStart yoe + doy) by lia.
  fold (yearOfEra (yearStart yoe + doy)).
  rewrite (yearOfEra_within yoe) by lia.
  replace (yearStart yoe + doy - (365 * yoe + yoe / 4 - yoe / 100)) with doy
    by (unfold yearStart; lia).
  rewrite Hmonth. fold (civilMonth mp). rewrite Hcm.
  f_equal; [f_equal|].
  - unfold yoe, y'. destruct (m <=? 2); lia.
  - unfold doy. lia.
Qed.

Lemma Date_in_range y m d h mi s ns off :
  1 <= m <= 12 -> 1 <= d <= Time.daysIn m y -> 0 <= h < 24 -> 0 <= mi < 60 ->
  0 <= s < 60 -> 0 <= ns < 1000000000 ->
  Time.Date y m d h mi s ns off = Time.mkTime y m d h mi s ns off.
Proof.
  intros Hm Hd Hh Hmi Hs Hns. unfold Time.Date.
  rewrite (Z.div_small (m - 1) 12), (Z.mod_small (m - 1) 12) by lia.
  rewrite (Z.div_small ns 1000000000), (Z.mod_small ns 1000000000) by lia.
  replace (y + 0) with y by lia. replace (m - 1 + 1) with m by lia.
  set (D := Time.daysFromCivil y m d).
  replace (D * 86400 + h * 3600 + mi * 60 + s + 0)
    with (D * 86400 + (h * 3600 + mi * 60 + s)) by lia.
  rewrite Z.div_add_l by lia.
  rewrite (Z.div_small (h * 3600 + mi * 60 + s) 86400) by lia.
  replace (D + 0) with D by lia. unfold D. rewrite civil_roundtrip by lia.
  rewrite Z.add_comm, Z.mod_add by lia.
  rewrite (Z.mod_small (h * 3600 + mi * 60 + s) 86400) by lia.
  f_equal.
  - Z.div_mod_to_equations. lia.
  - Z.div_mod_to_equations. lia.
  - Z.div_mod_to_equations. lia.
Qed.

(** *** Texts without a year *)

Lemma getnum_nonneg s fixed x v : Time.getnum s fixed = Some (x, v) -> 0 <= x.
Proof.
  unfold Time.getnum. destruct s as [|a [|b r]]; try discriminate;
    destruct (isDigit a) eqn:Ha; try discriminate;
    pose proof (isDigit_digitVal a Ha).
  - destruct fixed; [discriminate|]. intros [= <- _]. lia.
  - destruct (isDigit b) eqn:Hb.
    + pose proof (isDigit_digitVal b Hb). intros [= <- _]. lia.
    + destruct fixed; [discriminate|]. intros [= <- _]. lia.
Qed.

Ltac step_chunks H :=
  cbn [Time.parseChunks Time.parseChunk mbind option_bind] in H.

Lemma Parse_hour_shape s t :
  Time.Parse "15:04" s = Ok t ->
  exists h mi,
    t = Time.mkTime 0 1 1 h mi 0 0 0 /\ 0 <= h < 24 /\ 0 <= mi < 60
    /\ Time.Parse "01-02 15:04" s = Err (timeParseError "01-02 15:04" s).
Proof.
  unfold Time.Parse at 1.
  change (Time.chunksOf "15:04")
    with [Time.stdHour; Time.literal ":"; Time.stdZeroMinute].
  destruct (Time.parseChunks _ _) as [[f rest]|] eqn:Hp; [|discriminate].
  step_chunks Hp.
  destruct (Time.getnum s false) as [[h v]|] eqn:Hg; step_chunks Hp; [|discriminate].
  destruct (24 <=? h) eqn:Hh; step_chunks Hp; [discriminate|].
  destruct (Time.skip v ":") as [v2|] eqn:Hs; step_chunks Hp; [|discriminate].
  apply skip_colon in Hs. subst v.
  destruct (Time.getnum v2 true) as [[mi v3]|] eqn:Hg2; step_chunks Hp; [|discriminate].
  destruct (60 <=? mi) eqn:Hmi; step_chunks Hp; [discriminate|].
  injection Hp as <- <-. cbn [Time.fYear Time.fMonth Time.fDay Time.fHour Time.fMin
                              Time.fSec Time.fNsec].
  destruct v3; [|discriminate]. change (-1 <? 0) with true. cbv iota.
  change ((1 <? 1) || (Time.daysIn 1 0 <? 1)) with false. cbv iota.
  intros [= <-]. exists h, mi. split; [reflexivity|].
  pose proof (getnum_nonneg _ _ _ _ Hg). pose proof (getnum_nonneg _ _ _ _ Hg2).
  split; [lia|]. split; [lia|].
  unfold Time.Parse.
  change (Time.chunksOf "01-02 15:04")
    with [Time.stdZeroMonth; Time.literal "-"; Time.stdZeroDay; Time.literal " ";
          Time.stdHour; Time.literal ":"; Time.stdZeroMinute].
  destruct (Time.parseChunks _ (_, s)) as [[f rest]|] eqn:Hp; [|reflexivity].
  exfalso. step_chunks Hp.
  destruct (Time.getnum s true) as [[m v]|] eqn:Hg3; step_chunks Hp; [|discriminate].
  apply getnum_fixed_shape in Hg3 as (a & b & -> & Ha & Hb).
  unfold Time.getnum in Hg. rewrite Ha, Hb in Hg. injection Hg as _ ->.
  destruct (_ || _); step_chunks Hp; discriminate.
Qed.

Lemma parseWith_short now s :
  startsWithYear s = false ->
  parseWith now s formats
  = parseWith now s ["01-02 15:04"; "15:04"].
Proof.
  intros Hs. unfold formats. cbn [parseWith].
  destruct (Time.Parse "2006-01-02 15:04:05" s) as [t1|] eqn:H1.
  { destruct (Parse_full _ _ _ (or_introl eq_refl) H1). congruence. }
  destruct (Time.Parse "2006-01-02 15:04" s) as [t2|] eqn:H2.
  { destruct (Parse_full _ _ _ (or_intror eq_refl) H2). congruence. }
  reflexivity.
Qed.



Lemma Parse_month_shape s t :
  Time.Parse "01-02 15:04" s = Ok t ->
  exists m d h mi,
    t = Time.mkTime 0 m d h mi 0 0 0 /\ 1 <= m <= 12 /\ 1 <= d <= Time.daysIn m 0
    /\ 0 <= h < 24 /\ 0 <= mi < 60.
Proof.
  unfold Time.Parse.
  change (Time.chunksOf "01-02 15:04")
    with [Time.stdZeroMonth; Time.literal "-"; Time.stdZeroDay; Time.literal " ";
          Time.stdHour; Time.literal ":"; Time.stdZeroMinute].
  destruct (Time.parseChunks _ _) as [[f rest]|] eqn:Hp; [|discriminate].
  step_chunks Hp.
  destruct (Time.getnum s true) as [[m v]|] eqn:Hg; step_chunks Hp; [|discriminate].
  destruct ((m <=? 0) || (12 <? m)) eqn:Hm; step_chunks Hp; [discriminate|].
  destruct (Time.skip v "-") as [v1|]; step_chunks Hp; [|discriminate].
  destruct (Time.getnum v1 true) as [[d v2]|] eqn:Hg1; step_chunks Hp; [|discriminate].
  destruct (Time.skip v2 " ") as [v3|]; step_chunks Hp; [|discriminate].
  destruct (Time.getnum v3 false) as [[h v4]|] eqn:Hg2; step_chunks Hp; [|discriminate].
  destruct (24 <=? h) eqn:Hh; step_chunks Hp; [discriminate|].
  destruct (Time.skip v4 ":") as [v5|]; step_chunks Hp; [|discriminate].
  destruct (Time.getnum v5 true) as [[mi v6]|] eqn:Hg3; step_chunks Hp; [|discriminate].
  destruct (60 <=? mi) eqn:Hmi; step_chunks Hp; [discriminate|].
  injection Hp as <- <-. cbn [Time.fYear Time.fMonth Time.fDay Time.fHour Time.fMin
                              Time.fSec Time.fNsec].
  destruct v6; [|discriminate].
  apply orb_false_iff in Hm as [Hm1 Hm2].
  destruct (m <? 0) eqn:Hm0; [lia|].
  pose proof (getnum_nonneg _ _ _ _ Hg1) as Hd0.
  destruct (d <? 0) eqn:Hd1; [lia|].
  destruct ((d <? 1) || (Time.daysIn m 0 <? d)) eqn:Hd; [discriminate|].
  apply orb_false_iff in Hd as [Hd2 Hd3].
  intros [= <-]. exists m, d, h, mi. split; [reflexivity|].
  pose proof (getnum_nonneg _ _ _ _ Hg2). pose proof (getnum_nonneg _ _ _ _ Hg3).
  repeat split; lia.
Qed.

Lemma leap_day_rolls_over y :
  Time.isLeap y = false -> Time.daysFromCivil y 2 29 = Time.daysFromCivil y 3 1.
Proof.
  intros Hy. unfold Time.daysFromCivil.
  change (2 <=? 2) with true. change (3 <=? 2) with false. cbv iota.
  change ((153 * (2 + 9) + 2) / 5 + 29 - 1) with 365.
  change ((153 * (3 - 3) + 2) / 5 + 1 - 1) with 0.
  set (era := (y - 1) / 400). set (yoe := y - 1 - era * 400).
  assert (0 <= yoe < 400) as Hyoe.
  { unfold yoe, era. pose proof (Z.mod_pos_bound (y - 1) 400 ltac:(lia)) as Hb.
    rewrite Z.mod_eq in Hb by lia. lia. }
  assert (Time.isLeap (yoe + 1) = false) as Hl.
  { rewrite <- (isLeap_shift era). replace (400 * era + (yoe + 1)) with y; [exact Hy|].
    unfold yoe. lia. }
  destruct (year_facts yoe Hyoe) as (_ & _ & _ & _ & _ & Hlen). rewrite Hl in Hlen.
  assert (yoe <> 399) as Hne.
  { intros E. rewrite E in Hl. vm_compute in Hl. discriminate. }
  unfold yearEnd in Hlen. destruct (yoe =? 399) eqn:E; [lia|].
  assert (y = (yoe + 1) + era * 400) as Hyy by (unfold yoe; lia).
  assert (y / 400 = era) as He.
  { rewrite Hyy, Z.div_add by lia. rewrite Z.div_small by lia. lia. }
  rewrite He. replace (y - era * 400) with (yoe + 1) by lia.
  fold (yearStart yoe). fold (yearStart (yoe + 1)). lia.
Qed.


